(** * raw-tcp-segment: the packet-assembly and checksum engine of send_tcp.c

    A shallow embedding of [src/send_tcp.c].  The program builds one
    IPv4 + TCP segment in user space and hands it to a raw socket.

    Host model.  The source is written for a little-endian host compiled
    with GCC (its own comments say so: "reverse order of rfc due to little
    endian-ness").  The embedding fixes that host:
    - a [uint16_t]/[uint32_t] object occupies memory least significant byte
      first ([le16], [le32]);
    - [htons]/[htonl] reverse the bytes of their argument;
    - bit-fields are allocated from the least significant bit of their
      storage unit, in declaration order.
    Memory is a [list byte]; C integers are [Z] with the wrap-around of each
    conversion written out. *)

From Stdlib Require Import ZArith List Lia Bool String.
From Stdlib Require Import Init.Byte.
From Stdlib Require Import Ascii.
Import ListNotations.
Local Open Scope Z_scope.

(** ** Bytes and fixed-width integers *)

Definition byte_to_Z (b : byte) : Z := Z.of_N (Byte.to_N b).

(** Conversion to [uint8_t]: reduction modulo 2^8. *)
Definition Z_to_byte (z : Z) : byte :=
  match Byte.of_N (Z.to_N (z mod 256)) with
  | Some b => b
  | None => x00
  end.

Definition uint16 (z : Z) : Z := z mod 2 ^ 16.
Definition uint32 (z : Z) : Z := z mod 2 ^ 32.

(** Conversion to a signed 16-bit and to a signed 32-bit integer (two's
    complement wrap-around). *)
Definition int16 (z : Z) : Z := (z + 2 ^ 15) mod 2 ^ 16 - 2 ^ 15.
Definition int32 (z : Z) : Z := (z + 2 ^ 31) mod 2 ^ 32 - 2 ^ 31.

(** In-memory image of a [uint16_t] and of a [uint32_t] on the
    little-endian host. *)
Definition le16 (v : Z) : list byte :=
  [Z_to_byte v; Z_to_byte (Z.shiftr v 8)].

Definition le32 (v : Z) : list byte :=
  [Z_to_byte v; Z_to_byte (Z.shiftr v 8);
   Z_to_byte (Z.shiftr v 16); Z_to_byte (Z.shiftr v 24)].

(** [*(uint16_t * )ptr] for the two bytes found at [ptr]. *)
Definition load16 (b0 b1 : byte) : Z := byte_to_Z b0 + 256 * byte_to_Z b1.

(** [htons] and [htonl] of the little-endian host: byte reversal. *)
Definition htons (x : Z) : Z :=
  let x := uint16 x in
  Z.lor (Z.shiftl (Z.land x 0xFF) 8) (Z.shiftr x 8).

Definition htonl (x : Z) : Z :=
  let x := uint32 x in
  Z.lor (Z.lor (Z.shiftl (Z.land x 0xFF) 24)
               (Z.shiftl (Z.land (Z.shiftr x 8) 0xFF) 16))
        (Z.lor (Z.shiftl (Z.land (Z.shiftr x 16) 0xFF) 8)
               (Z.shiftr x 24)).

(** [memcpy(dst, src, n)]: the first [n] bytes of the source range. *)
Definition memcpy (src : list byte) (n : Z) : list byte :=
  firstn (Z.to_nat n) src.

(** ** Constants *)

Definition FIN : Z := 0x01.
Definition SYN : Z := 0x02.
Definition RST : Z := 0x04.
Definition PSH : Z := 0x08.
Definition ACK : Z := 0x10.
Definition URG : Z := 0x20.

(** From the system headers. *)
Definition IPPROTO_TCP : Z := 6.
Definition IPPROTO_RAW : Z := 255.
Definition AF_INET : Z := 2.
Definition SOCK_RAW : Z := 3.

(** ** The three headers *)

Record ip_header := {
  iph_ihl : Z;                 (* uint8_t : 4 *)
  iph_version : Z;             (* uint8_t : 4 *)
  iph_tos : Z;                 (* uint8_t : 8 *)
  iph_total_length : Z;        (* uint16_t *)
  iph_identification : Z;      (* uint16_t *)
  iph_flags : Z;               (* uint8_t : 3 *)
  iph_fragment_offset : Z;     (* uint16_t : 13 *)
  iph_ttl : Z;                 (* uint8_t *)
  iph_protocol : Z;            (* uint8_t *)
  iph_header_checksum : Z;     (* uint16_t *)
  iph_source_address : Z;      (* uint32_t *)
  iph_destination_address : Z  (* uint32_t *)
}.

Record tcp_header := {
  tcph_source_port : Z;            (* uint16_t *)
  tcph_destination_port : Z;       (* uint16_t *)
  tcph_sequence_number : Z;        (* uint32_t *)
  tcph_acknowledgment_number : Z;  (* uint32_t *)
  tcph_reserved1 : Z;              (* uint8_t : 4 *)
  tcph_data_offset : Z;            (* uint8_t : 4 *)
  tcph_fin : Z;                    (* uint8_t : 1 *)
  tcph_syn : Z;
  tcph_rst : Z;
  tcph_psh : Z;
  tcph_ack : Z;
  tcph_urg : Z;
  tcph_reserved2 : Z;              (* uint8_t : 2 *)
  tcph_window : Z;                 (* uint16_t *)
  tcph_checksum : Z;               (* uint16_t *)
  tcph_urgent_pointer : Z          (* uint16_t *)
}.

Record pseudo_header := {
  ph_source_address : Z;       (* uint32_t *)
  ph_destination_address : Z;  (* uint32_t *)
  ph_reserved : Z;             (* uint8_t *)
  ph_protocol : Z;             (* uint8_t *)
  ph_tcp_length : Z            (* uint16_t *)
}.

Definition sizeof_ip_header : Z := 20.
Definition sizeof_tcp_header : Z := 20.
Definition sizeof_pseudo_header : Z := 12.

(** A bit-field of [w] bits placed [pos] bits above the least significant
    bit of its storage unit. *)
Definition bitfield (w pos v : Z) : Z := Z.shiftl (Z.land v (Z.ones w)) pos.

(** The first 10 bytes of [struct ip_header], up to the checksum field.
    [ihl] and [version] share byte 0; [flags] and [fragment_offset] share
    the 16-bit unit at bytes 6-7. *)
Definition ip_header_prefix (h : ip_header) : list byte :=
  [Z_to_byte (Z.lor (bitfield 4 0 (iph_ihl h)) (bitfield 4 4 (iph_version h)));
   Z_to_byte (iph_tos h)]
  ++ le16 (iph_total_length h)
  ++ le16 (iph_identification h)
  ++ le16 (Z.lor (bitfield 3 0 (iph_flags h))
                 (bitfield 13 3 (iph_fragment_offset h)))
  ++ [Z_to_byte (iph_ttl h); Z_to_byte (iph_protocol h)].

(** The object representation of [struct ip_header]: 20 bytes. *)
Definition ip_header_bytes (h : ip_header) : list byte :=
  ip_header_prefix h
  ++ le16 (iph_header_checksum h)
  ++ le32 (iph_source_address h)
  ++ le32 (iph_destination_address h).

(** Byte 13 of [struct tcp_header]: the six flag bit-fields then
    [reserved2]. *)
Definition tcp_flags_byte (t : tcp_header) : Z :=
  Z.lor (bitfield 1 0 (tcph_fin t))
 (Z.lor (bitfield 1 1 (tcph_syn t))
 (Z.lor (bitfield 1 2 (tcph_rst t))
 (Z.lor (bitfield 1 3 (tcph_psh t))
 (Z.lor (bitfield 1 4 (tcph_ack t))
 (Z.lor (bitfield 1 5 (tcph_urg t))
        (bitfield 2 6 (tcph_reserved2 t))))))).

(** The first 16 bytes of [struct tcp_header], up to the checksum field. *)
Definition tcp_header_prefix (t : tcp_header) : list byte :=
  le16 (tcph_source_port t)
  ++ le16 (tcph_destination_port t)
  ++ le32 (tcph_sequence_number t)
  ++ le32 (tcph_acknowledgment_number t)
  ++ [Z_to_byte (Z.lor (bitfield 4 0 (tcph_reserved1 t))
                       (bitfield 4 4 (tcph_data_offset t)));
      Z_to_byte (tcp_flags_byte t)]
  ++ le16 (tcph_window t).

(** The object representation of [struct tcp_header]: 20 bytes. *)
Definition tcp_header_bytes (t : tcp_header) : list byte :=
  tcp_header_prefix t
  ++ le16 (tcph_checksum t)
  ++ le16 (tcph_urgent_pointer t).

(** The object representation of [struct pseudo_header]: 12 bytes. *)
Definition pseudo_header_bytes (p : pseudo_header) : list byte :=
  le32 (ph_source_address p)
  ++ le32 (ph_destination_address p)
  ++ [Z_to_byte (ph_reserved p); Z_to_byte (ph_protocol p)]
  ++ le16 (ph_tcp_length p).

(** ** checksum *)

(** The [while] loop and the odd-byte branch of [checksum], over the range
    still to be read; [sum] is the [int32_t] accumulator.  The odd byte is
    stored into the first byte of the zeroed [oddbyte], which on this host
    is its low byte. *)
Fixpoint checksum_loop (ptr : list byte) (sum : Z) : Z :=
  match ptr with
  | b0 :: b1 :: ptr' => checksum_loop ptr' (int32 (sum + load16 b0 b1))
  | [b0] => int32 (sum + load16 b0 x00)
  | [] => sum
  end.

(** [uint16_t checksum(const void* p, int num_bytes)]; the range read is
    the first [num_bytes] bytes at [p].  [answer] is an [int16_t], returned
    as [uint16_t]. *)
Definition checksum (p : list byte) (num_bytes : Z) : Z :=
  let sum := checksum_loop (firstn (Z.to_nat num_bytes) p) 0 in
  let sum := int32 (Z.shiftr sum 16 + Z.land sum 0xFFFF) in
  let sum := int32 (sum + Z.shiftr sum 16) in
  let answer := int16 (Z.lnot sum) in
  uint16 answer.

(** ** build_pseudo_header, build_tcp_checksum *)

Definition build_pseudo_header (tcph : tcp_header) (iph : ip_header)
    (options : list byte) (options_length : Z)
    (tcp_payload : list byte) (tcp_payload_length : Z) : pseudo_header :=
  {| ph_source_address := iph_source_address iph;
     ph_destination_address := iph_destination_address iph;
     ph_reserved := 0;
     ph_protocol := iph_protocol iph;
     ph_tcp_length :=
       htons (sizeof_tcp_header + options_length + tcp_payload_length) |}.

Definition set_tcph_checksum (t : tcp_header) (c : Z) : tcp_header :=
  {| tcph_source_port := tcph_source_port t;
     tcph_destination_port := tcph_destination_port t;
     tcph_sequence_number := tcph_sequence_number t;
     tcph_acknowledgment_number := tcph_acknowledgment_number t;
     tcph_reserved1 := tcph_reserved1 t;
     tcph_data_offset := tcph_data_offset t;
     tcph_fin := tcph_fin t;
     tcph_syn := tcph_syn t;
     tcph_rst := tcph_rst t;
     tcph_psh := tcph_psh t;
     tcph_ack := tcph_ack t;
     tcph_urg := tcph_urg t;
     tcph_reserved2 := tcph_reserved2 t;
     tcph_window := tcph_window t;
     tcph_checksum := c;
     tcph_urgent_pointer := tcph_urgent_pointer t |}.

(** The transient buffer of [build_tcp_checksum]: pseudo-header, TCP header,
    data. *)
Definition csum_buffer (ph : pseudo_header) (tcph : tcp_header)
    (data : list byte) (data_length : Z) : list byte :=
  memcpy (pseudo_header_bytes ph) sizeof_pseudo_header
  ++ memcpy (tcp_header_bytes tcph) sizeof_tcp_header
  ++ memcpy data data_length.

(** Returns the TCP header with its checksum field assigned. *)
Definition build_tcp_checksum (ph : pseudo_header) (tcph : tcp_header)
    (options : list byte) (options_length : Z)
    (data : list byte) (data_length : Z) : tcp_header :=
  let psize := sizeof_pseudo_header + sizeof_tcp_header + data_length in
  set_tcph_checksum tcph (checksum (csum_buffer ph tcph data data_length) psize).

(** ** send_tcp_packet *)

(** An object with every member zero: what a designated initializer leaves
    in the members it does not name. *)
Definition ip_header_zero : ip_header :=
  {| iph_ihl := 0; iph_version := 0; iph_tos := 0; iph_total_length := 0;
     iph_identification := 0; iph_flags := 0; iph_fragment_offset := 0;
     iph_ttl := 0; iph_protocol := 0; iph_header_checksum := 0;
     iph_source_address := 0; iph_destination_address := 0 |}.

Definition set_iph_header_checksum (h : ip_header) (c : Z) : ip_header :=
  {| iph_ihl := iph_ihl h;
     iph_version := iph_version h;
     iph_tos := iph_tos h;
     iph_total_length := iph_total_length h;
     iph_identification := iph_identification h;
     iph_flags := iph_flags h;
     iph_fragment_offset := iph_fragment_offset h;
     iph_ttl := iph_ttl h;
     iph_protocol := iph_protocol h;
     iph_header_checksum := c;
     iph_source_address := iph_source_address h;
     iph_destination_address := iph_destination_address h |}.

(** [const uint16_t total_length = sizeof(struct ip_header)
      + sizeof(struct tcp_header) + data_length;] *)
Definition send_total_length (data_length : Z) : Z :=
  uint16 (sizeof_ip_header + sizeof_tcp_header + data_length).

(** The initializer of [iph].  [identification] is not named by it. *)
Definition send_iph_init (source_address destination_address data_length : Z)
    : ip_header :=
  {| iph_version := 4;
     iph_ihl := 5;
     iph_tos := 0;
     iph_total_length := htons (send_total_length data_length);
     iph_identification := iph_identification ip_header_zero;
     iph_fragment_offset := 0;
     iph_ttl := 64;
     iph_protocol := IPPROTO_TCP;
     iph_flags := 0;
     iph_header_checksum := 0;
     iph_source_address := source_address;
     iph_destination_address := destination_address |}.

(** [iph] after [iph.header_checksum = checksum(&iph, sizeof(struct ip_header))]. *)
Definition send_iph (source_address destination_address data_length : Z)
    : ip_header :=
  let iph := send_iph_init source_address destination_address data_length in
  set_iph_header_checksum iph (checksum (ip_header_bytes iph) sizeof_ip_header).

(** The initializer of [tcph]. *)
Definition send_tcph_init (source_port destination_port sequence_number
    acknowledgement_number flags : Z) : tcp_header :=
  {| tcph_source_port := source_port;
     tcph_destination_port := destination_port;
     tcph_sequence_number := sequence_number;
     tcph_acknowledgment_number := acknowledgement_number;
     tcph_reserved1 := 0;
     tcph_reserved2 := 0;
     tcph_data_offset := 5;
     tcph_fin := Z.shiftr (Z.land flags 0x01) 0;
     tcph_syn := Z.shiftr (Z.land flags 0x02) 1;
     tcph_rst := Z.shiftr (Z.land flags 0x04) 2;
     tcph_psh := Z.shiftr (Z.land flags 0x08) 3;
     tcph_ack := Z.shiftr (Z.land flags 0x10) 4;
     tcph_urg := Z.shiftr (Z.land flags 0x20) 5;
     tcph_window := htons 32768;
     tcph_checksum := 0;
     tcph_urgent_pointer := 0 |}.

(** [ph] after the call of [build_pseudo_header]; its last parameter is a
    [uint16_t]. *)
Definition send_ph (source_address destination_address source_port
    destination_port sequence_number acknowledgement_number flags : Z)
    (data : list byte) (data_length : Z) : pseudo_header :=
  build_pseudo_header
    (send_tcph_init source_port destination_port sequence_number
       acknowledgement_number flags)
    (send_iph source_address destination_address data_length)
    [] 0 data (uint16 data_length).

(** [tcph] after the call of [build_tcp_checksum]; its last parameter is a
    [uint16_t]. *)
Definition send_tcph (source_address destination_address source_port
    destination_port sequence_number acknowledgement_number flags : Z)
    (data : list byte) (data_length : Z) : tcp_header :=
  build_tcp_checksum
    (send_ph source_address destination_address source_port destination_port
       sequence_number acknowledgement_number flags data data_length)
    (send_tcph_init source_port destination_port sequence_number
       acknowledgement_number flags)
    [] 0 data (uint16 data_length).

(** The buffer [PDU]: IP header, TCP header, data. *)
Definition send_PDU (source_address destination_address source_port
    destination_port sequence_number acknowledgement_number flags : Z)
    (data : list byte) (data_length : Z) : list byte :=
  memcpy (ip_header_bytes
            (send_iph source_address destination_address data_length))
         sizeof_ip_header
  ++ memcpy (tcp_header_bytes
               (send_tcph source_address destination_address source_port
                  destination_port sequence_number acknowledgement_number
                  flags data data_length))
            sizeof_tcp_header
  ++ memcpy data data_length.

(** ** The transmit side and main *)

(** [struct internet_socket_address], without its padding. *)
Record internet_socket_address := {
  sin_family : Z;
  sin_port : Z;
  sin_address : Z
}.

(** What the program takes from outside itself: two libc parsers and the
    two socket calls.  [socket] and [sendto] give the value the call
    returns; [sendto] is given the descriptor, the bytes handed over (the
    first [len] bytes of the buffer), the flags and the destination. *)
Record environment := {
  atoi : string -> Z;
  inet_addr : string -> Z;
  socket : Z -> Z -> Z -> Z;
  sendto : Z -> list byte -> Z -> internet_socket_address -> Z
}.

(** The observable actions of a run, in order.  What is written to stdout
    is left out; a message on stderr is given without its newline. *)
Inductive event :=
| Esocket (domain type protocol : Z)
| Esendto (sockfd : Z) (buf : list byte) (flags : Z)
          (dest : internet_socket_address)
| Estderr (msg : string).

(** [void send_tcp_packet(...)]: nothing is returned; the result is the
    trace of the call. *)
Definition send_tcp_packet (env : environment)
    (source_address source_port destination_address destination_port
     sequence_number acknowledgement_number flags : Z)
    (data : list byte) (data_length : Z) : list event :=
  let total_length := send_total_length data_length in
  let PDU := send_PDU source_address destination_address source_port
               destination_port sequence_number acknowledgement_number
               flags data data_length in
  let sin := {| sin_family := AF_INET;
                sin_port := destination_port;
                sin_address := destination_address |} in
  let sockfd := socket env AF_INET SOCK_RAW IPPROTO_RAW in
  let sent := memcpy PDU total_length in
  [Esocket AF_INET SOCK_RAW IPPROTO_RAW]
  ++ (if sockfd <? 0 then [Estderr "Error creating socket"] else [])
  ++ [Esendto sockfd sent 0 sin]
  ++ (if sendto env sockfd sent 0 sin <? 0
      then [Estderr "Error sending packet"] else []).

Definition argv_at (argv : list string) (i : nat) : string :=
  nth i argv EmptyString.

Definition usage (argv0 : string) : string :=
  "Usage: " ++ argv0 ++ " <src_ip> <src_port> <dst_ip> <dst_port> [data]".

(** [int main(int argc, char* argv[])]: the exit status and the trace.
    [strlen] is the number of bytes of the argument, assigned to an [int]. *)
Definition main (env : environment) (argc : Z) (argv : list string)
    : Z * list event :=
  if (negb (argc =? 5) && negb (argc =? 6))%bool then
    (1, [Estderr (usage (argv_at argv 0))])
  else
    let src_ip := argv_at argv 1 in
    let source_port := atoi env (argv_at argv 2) in
    let dest_ip := argv_at argv 3 in
    let dest_port := atoi env (argv_at argv 4) in
    let data := if argc =? 6 then list_byte_of_string (argv_at argv 5)
                else [] in
    let data_length := if argc =? 6 then int32 (Z.of_nat (List.length data))
                       else 0 in
    (0, send_tcp_packet env
          (inet_addr env src_ip)
          (htons source_port)
          (inet_addr env dest_ip)
          (htons dest_port)
          (htonl 0x1000)
          (htonl 0x0)
          SYN
          data
          data_length).

(** ** The receiver's reading of the wire *)

(** The byte at offset [off], and the big-endian integers found there. *)
Definition byte_at (p : list byte) (off : nat) : Z :=
  byte_to_Z (nth off p x00).

Definition be16_at (p : list byte) (off : nat) : Z :=
  256 * byte_at p off + byte_at p (off + 1).

Definition be32_at (p : list byte) (off : nat) : Z :=
  2 ^ 24 * byte_at p off + 2 ^ 16 * byte_at p (off + 1)
  + 2 ^ 8 * byte_at p (off + 2) + byte_at p (off + 3).

(** A byte range as consecutive 16-bit big-endian words; a trailing odd
    byte is the high byte of a word whose low byte is zero. *)
Fixpoint be_words (p : list byte) : list Z :=
  match p with
  | b0 :: b1 :: p' => (256 * byte_to_Z b0 + byte_to_Z b1) :: be_words p'
  | [b0] => [256 * byte_to_Z b0]
  | [] => []
  end.

(** One's-complement addition of two 16-bit words: the carry out of bit 15
    is added back into bit 0. *)
Definition ones_add (a b : Z) : Z :=
  let s := a + b in Z.land s 0xFFFF + Z.shiftr s 16.

(** The one's-complement sum a receiver computes over a byte range. *)
Definition ones_complement_sum (p : list byte) : Z :=
  fold_left ones_add (be_words p) 0.

(** The TCP segment carried by a PDU: everything after the IP header. *)
Definition tcp_segment (PDU : list byte) : list byte := skipn 20 PDU.

(** The pseudo-header a receiver forms from the IP header on the wire:
    the two addresses, a zero byte, the protocol byte, and the TCP length
    (the IP total length less the 20 bytes of IP header). *)
Definition wire_pseudo_header (PDU : list byte) : list byte :=
  firstn 8 (skipn 12 PDU)
  ++ [x00; nth 9 PDU x00]
  ++ [Z_to_byte (Z.shiftr (be16_at PDU 2 - 20) 8);
      Z_to_byte (be16_at PDU 2 - 20)].

(** ** print_bytes and what send_tcp_packet writes to stdout *)

Definition newline : string := String "010"%char EmptyString.

(** The digit [printf] writes for a value below 16 under [%X]. *)
Definition hex_digit (d : Z) : ascii :=
  nth (Z.to_nat d) (list_ascii_of_string "0123456789ABCDEF") "0"%char.

(** The digit [printf] writes for one bit under [%B]. *)
Definition bin_digit (v : Z) (i : Z) : ascii :=
  if Z.testbit v i then "1"%char else "0"%char.

(** [printf("%02X ", b)] for a [uint8_t] [b]: two digits and a space. *)
Definition format_02X (b : byte) : string :=
  let v := byte_to_Z b in
  String (hex_digit (v / 16)) (String (hex_digit (v mod 16)) " ").

(** [printf("%08B ", b)] for a [uint8_t] [b]: eight digits, most
    significant first, and a space. *)
Definition format_08B (b : byte) : string :=
  let v := byte_to_Z b in
  String (bin_digit v 7) (String (bin_digit v 6) (String (bin_digit v 5)
 (String (bin_digit v 4) (String (bin_digit v 3) (String (bin_digit v 2)
 (String (bin_digit v 1) (String (bin_digit v 0) " "))))))).

(** One [for] loop of [print_bytes] over the bytes it visits. *)
Fixpoint print_loop (format : byte -> string) (p : list byte) : string :=
  match p with
  | [] => EmptyString
  | b :: p' => format b ++ print_loop format p'
  end.

(** [void print_bytes(const void *p, int num_bytes)]: what it writes. *)
Definition print_bytes (p : list byte) (num_bytes : Z) : string :=
  print_loop format_02X (firstn (Z.to_nat num_bytes) p) ++ newline
  ++ print_loop format_08B (firstn (Z.to_nat num_bytes) p) ++ newline.


(** Reading a dump back.  [hex_value] and [bin_value] are the values of a
    digit; [read_hex_line] and [read_bin_line] read groups of digits
    followed by a space up to the end of the line and return the bytes with
    what follows the line. *)
Definition hex_value (c : ascii) : Z :=
  let n := Z.of_nat (nat_of_ascii c) in
  if (48 <=? n) && (n <=? 57) then n - 48
  else if (65 <=? n) && (n <=? 70) then n - 55
  else 0.

Definition bin_value (c : ascii) : Z :=
  if Ascii.eqb c "1" then 1 else 0.

Fixpoint read_hex_line (s : string) : list byte * string :=
  match s with
  | String h (String l (String " " s')) =>
      let (bs, rest) := read_hex_line s' in
      (Z_to_byte (16 * hex_value h + hex_value l) :: bs, rest)
  | String _ rest => ([], rest)
  | EmptyString => ([], EmptyString)
  end.

Fixpoint read_bin_line (s : string) : list byte * string :=
  match s with
  | String b7 (String b6 (String b5 (String b4 (String b3 (String b2
      (String b1 (String b0 (String " " s')))))))) =>
      let (bs, rest) := read_bin_line s' in
      (Z_to_byte
         (128 * bin_value b7 + 64 * bin_value b6 + 32 * bin_value b5
          + 16 * bin_value b4 + 8 * bin_value b3 + 4 * bin_value b2
          + 2 * bin_value b1 + bin_value b0) :: bs, rest)
  | String _ rest => ([], rest)
  | EmptyString => ([], EmptyString)
  end.

(** ** Auxiliary definitions for the proofs *)

(** The network-order (big-endian) image of a 16-bit and of a 32-bit
    value. *)
Definition be16 (v : Z) : list byte :=
  [Z_to_byte (Z.shiftr v 8); Z_to_byte v].

Definition be32 (v : Z) : list byte :=
  [Z_to_byte (Z.shiftr v 24); Z_to_byte (Z.shiftr v 16);
   Z_to_byte (Z.shiftr v 8); Z_to_byte v].

Definition Zsum (ws : list Z) : Z := fold_right Z.add 0 ws.

(** The words [checksum] reads: host order, the odd byte in the low half. *)
Fixpoint le_words (p : list byte) : list Z :=
  match p with
  | b0 :: b1 :: p' => load16 b0 b1 :: le_words p'
  | [b0] => [load16 b0 x00]
  | [] => []
  end.

(** ** Concrete runs *)

(** An environment in which both socket calls succeed, and one in which
    [sendto] fails.  The parsers return what libc returns on the argument
    strings used below. *)
Definition parse_port (s : string) : Z :=
  if String.eqb s "12345" then 12345
  else if String.eqb s "80" then 80 else 0.

Definition parse_address (s : string) : Z :=
  if String.eqb s "10.0.0.1" then 0x0100000A
  else if String.eqb s "10.0.0.2" then 0x0200000A else 0xFFFFFFFF.

Definition env_ok : environment :=
  {| atoi := parse_port;
     inet_addr := parse_address;
     socket := fun _ _ _ => 3;
     sendto := fun _ buf _ _ => Z.of_nat (List.length buf) |}.

Definition env_send_fails : environment :=
  {| atoi := parse_port;
     inet_addr := parse_address;
     socket := fun _ _ _ => 3;
     sendto := fun _ _ _ _ => -1 |}.

(** A payload one byte longer than 65515. *)
Definition payload_65516 : list byte := repeat x00 (Z.to_nat 65516).

(** * Properties *)

(** ** Bytes *)

Lemma byte_to_Z_range (b : byte) : 0 <= byte_to_Z b < 256.
Proof.
  unfold byte_to_Z. pose proof (Byte.to_N_bounded b). lia.
Qed.

Lemma byte_to_Z_to_byte (z : Z) : byte_to_Z (Z_to_byte z) = z mod 256.
Proof.
  unfold byte_to_Z, Z_to_byte.
  assert (Hr : 0 <= z mod 256 < 256) by (apply Z.mod_pos_bound; lia).
  destruct (Byte.of_N (Z.to_N (z mod 256))) as [b|] eqn:E.
  - apply Byte.to_of_N in E. rewrite E. lia.
  - apply Byte.of_N_None_iff in E. lia.
Qed.

Lemma Z_to_byte_to_Z (b : byte) : Z_to_byte (byte_to_Z b) = b.
Proof.
  unfold Z_to_byte, byte_to_Z.
  pose proof (Byte.to_N_bounded b).
  rewrite Z.mod_small by lia.
  rewrite N2Z.id, Byte.of_to_N. reflexivity.
Qed.

Lemma Z_to_byte_mod (z : Z) : Z_to_byte (z mod 256) = Z_to_byte z.
Proof.
  unfold Z_to_byte. rewrite Z.mod_mod by lia. reflexivity.
Qed.

Lemma int32_small (z : Z) : - 2 ^ 31 <= z < 2 ^ 31 -> int32 z = z.
Proof.
  intros H. unfold int32. rewrite Z.mod_small; lia.
Qed.

Lemma load16_range (b0 b1 : byte) : 0 <= load16 b0 b1 <= 65535.
Proof.
  unfold load16.
  pose proof (byte_to_Z_range b0). pose proof (byte_to_Z_range b1). lia.
Qed.

Lemma load16_le16 (c : Z) :
  0 <= c < 65536 ->
  load16 (Z_to_byte c) (Z_to_byte (Z.shiftr c 8)) = c.
Proof.
  intros H. unfold load16. rewrite !byte_to_Z_to_byte.
  rewrite Z.shiftr_div_pow2 by lia. change (2 ^ 8) with 256.
  rewrite (Z.mod_small (c / 256)) by
    (split; [apply Z.div_pos; lia | apply Z.div_lt_upper_bound; lia]).
  pose proof (Z.div_mod c 256). lia.
Qed.

(** ** Reading a range two bytes at a time *)

Lemma list_pair_ind (A : Type) (P : list A -> Prop) :
  P [] ->
  (forall a, P [a]) ->
  (forall a b l, P l -> P (a :: b :: l)) ->
  forall l, P l.
Proof.
  intros H0 H1 H2 l.
  assert (H : P l /\ forall a, P (a :: l)).
  { induction l as [|x l [IH1 IH2]].
    - split; [exact H0 | exact H1].
    - split; [apply IH2 | intros a; apply H2; exact IH1]. }
  apply H.
Qed.

Lemma Zsum_cons (x : Z) (u : list Z) : Zsum (x :: u) = x + Zsum u.
Proof. reflexivity. Qed.

Lemma Zsum_app (u v : list Z) : Zsum (u ++ v) = Zsum u + Zsum v.
Proof.
  induction u as [|x u IH]; simpl; [reflexivity | rewrite IH; lia].
Qed.

Lemma le_words_app (u v : list byte) :
  Nat.even (List.length u) = true ->
  le_words (u ++ v) = le_words u ++ le_words v.
Proof.
  induction u as [| a | a b u IH] using list_pair_ind; intros He.
  - reflexivity.
  - discriminate He.
  - cbn [app le_words]. rewrite IH by exact He. reflexivity.
Qed.

Lemma be_words_app (u v : list byte) :
  Nat.even (List.length u) = true ->
  be_words (u ++ v) = be_words u ++ be_words v.
Proof.
  induction u as [| a | a b u IH] using list_pair_ind; intros He.
  - reflexivity.
  - discriminate He.
  - cbn [app be_words]. rewrite IH by exact He. reflexivity.
Qed.

Lemma le_words_sum_bound (p : list byte) :
  0 <= Zsum (le_words p) /\
  2 * Zsum (le_words p) <= 65535 * (Z.of_nat (List.length p) + 1).
Proof.
  induction p as [| a | a b p IH] using list_pair_ind.
  - cbn. lia.
  - cbn [le_words Zsum fold_right List.length].
    pose proof (load16_range a x00). unfold load16 in *.
    pose proof (byte_to_Z_range a). change (byte_to_Z x00) with 0 in *. lia.
  - cbn [le_words Zsum fold_right List.length]. fold (Zsum (le_words p)).
    pose proof (load16_range a b). lia.
Qed.

Lemma be_words_range (p : list byte) :
  Forall (fun w => 0 <= w <= 65535) (be_words p).
Proof.
  induction p as [| a | a b p IH] using list_pair_ind; cbn [be_words].
  - constructor.
  - constructor; [|constructor]. pose proof (byte_to_Z_range a). lia.
  - constructor; [|exact IH].
    pose proof (byte_to_Z_range a). pose proof (byte_to_Z_range b). lia.
Qed.

Lemma be_words_sum_nonneg (p : list byte) : 0 <= Zsum (be_words p).
Proof.
  pose proof (be_words_range p) as H.
  induction H as [|w ws Hw _ IH]; cbn; [lia | fold (Zsum ws); lia].
Qed.

(** Swapping the two bytes of every word multiplies the sum by 2^8 modulo
    2^16 - 1. *)
Lemma be_le_words_sum (p : list byte) :
  exists k, Zsum (be_words p) = 256 * Zsum (le_words p) - 65535 * k.
Proof.
  induction p as [| a | a b p [k IH]] using list_pair_ind.
  - exists 0. reflexivity.
  - exists 0. cbn [be_words le_words Zsum fold_right]. unfold load16.
    change (byte_to_Z x00) with 0. lia.
  - exists (k + byte_to_Z b).
    cbn [be_words le_words Zsum fold_right].
    fold (Zsum (be_words p)). fold (Zsum (le_words p)).
    unfold load16. lia.
Qed.

(** Without overflow of the accumulator the loop adds up [le_words]. *)
Lemma checksum_loop_sum (p : list byte) :
  forall sum, 0 <= sum -> sum + Zsum (le_words p) < 2 ^ 31 ->
  checksum_loop p sum = sum + Zsum (le_words p).
Proof.
  induction p as [| a | a b p IH] using list_pair_ind; intros sum H0 H1.
  - cbn. lia.
  - cbn [checksum_loop le_words Zsum fold_right] in *.
    pose proof (load16_range a x00).
    rewrite int32_small; lia.
  - cbn [checksum_loop le_words Zsum fold_right] in *.
    fold (Zsum (le_words p)) in *.
    pose proof (load16_range a b).
    pose proof (le_words_sum_bound p) as [Hp _].
    rewrite int32_small by lia.
    rewrite IH by lia. lia.
Qed.

Lemma le_be_words_sum (p : list byte) :
  Zsum (le_words p) <= 256 * Zsum (be_words p).
Proof.
  induction p as [| a | a b p IH] using list_pair_ind.
  - cbn. lia.
  - cbn [be_words le_words Zsum fold_right]. unfold load16.
    change (byte_to_Z x00) with 0. pose proof (byte_to_Z_range a). lia.
  - cbn [be_words le_words Zsum fold_right].
    fold (Zsum (be_words p)). fold (Zsum (le_words p)). unfold load16.
    pose proof (byte_to_Z_range a). pose proof (byte_to_Z_range b). lia.
Qed.

(** ** The fold and the complement *)

(** What [checksum] returns is a 16-bit value that brings the sum of the
    words it read to a positive multiple of 2^16 - 1. *)
Lemma checksum_complement (p : list byte) (num_bytes : Z) :
  let S := Zsum (le_words (firstn (Z.to_nat num_bytes) p)) in
  S < 2 ^ 31 ->
  0 <= checksum p num_bytes < 65536 /\
  exists k, 0 < k /\ S + checksum p num_bytes = 65535 * k.
Proof.
  intros S HS.
  pose proof (le_words_sum_bound (firstn (Z.to_nat num_bytes) p)) as [H0 _].
  fold S in H0.
  unfold checksum.
  rewrite checksum_loop_sum by (fold S; lia).
  fold S. rewrite Z.add_0_l.
  change 0xFFFF with (Z.ones 16). rewrite Z.land_ones by lia.
  change (Z.ones 16) with 65535.
  rewrite !Z.shiftr_div_pow2 by lia.
  change (2 ^ 16) with 65536.
  assert (Hq : 0 <= S / 65536 < 32768).
  { split; [apply Z.div_pos; lia | apply Z.div_lt_upper_bound; lia]. }
  assert (Hr : 0 <= S mod 65536 < 65536) by (apply Z.mod_pos_bound; lia).
  pose proof (Z.div_mod S 65536 ltac:(lia)) as HSdm.
  set (q := S / 65536) in *. set (r := S mod 65536) in *.
  rewrite (int32_small (q + r)) by lia.
  set (s1 := q + r).
  assert (Hq1 : 0 <= s1 / 65536 <= 1).
  { split; [apply Z.div_pos; lia |].
    assert (s1 / 65536 < 2) by (apply Z.div_lt_upper_bound; lia). lia. }
  pose proof (Z.div_mod s1 65536 ltac:(lia)) as Hs1.
  assert (Hr1 : 0 <= s1 mod 65536 < 65536) by (apply Z.mod_pos_bound; lia).
  set (q1 := s1 / 65536) in *. set (r1 := s1 mod 65536) in *.
  rewrite (int32_small (s1 + q1)) by lia.
  unfold uint16, int16, Z.lnot.
  change (2 ^ 16) with 65536. change (2 ^ 15) with 32768.
  assert (Hc : (Z.pred (- (s1 + q1)) + 32768) mod 65536 - 32768
               = (- (s1 + q1) - 1)
                 + - ((Z.pred (- (s1 + q1)) + 32768) / 65536) * 65536).
  { pose proof (Z.div_mod (Z.pred (- (s1 + q1)) + 32768) 65536 ltac:(lia)).
    lia. }
  rewrite Hc, Z.mod_add by lia.
  assert (Hlow : (- (s1 + q1) - 1) mod 65536 = 65535 - (r1 + q1)).
  { replace (- (s1 + q1) - 1) with (65535 - (r1 + q1) + (- q1 - 1) * 65536)
      by lia.
    rewrite Z.mod_add by lia. apply Z.mod_small.
    unfold s1 in *. lia. }
  rewrite Hlow.
  split; [unfold s1 in *; lia |].
  exists (q + 1 + q1). split; [lia |].
  unfold s1 in *. lia.
Qed.

Lemma ones_add_spec (a b : Z) :
  0 <= a <= 65535 -> 0 <= b <= 65535 ->
  0 <= ones_add a b <= 65535 /\
  (exists k, ones_add a b = a + b - 65535 * k) /\
  (ones_add a b = 0 -> a + b = 0).
Proof.
  intros Ha Hb. unfold ones_add.
  change 0xFFFF with (Z.ones 16). rewrite Z.land_ones by lia.
  change (Z.ones 16) with 65535.
  rewrite Z.shiftr_div_pow2 by lia. change (2 ^ 16) with 65536.
  pose proof (Z.div_mod (a + b) 65536 ltac:(lia)) as Hdm.
  assert (Hr : 0 <= (a + b) mod 65536 < 65536) by (apply Z.mod_pos_bound; lia).
  assert (Hq : 0 <= (a + b) / 65536 <= 1).
  { split; [apply Z.div_pos; lia |].
    assert ((a + b) / 65536 < 2) by (apply Z.div_lt_upper_bound; lia). lia. }
  repeat split; try lia.
  exists ((a + b) / 65536). lia.
Qed.

Lemma ones_fold_spec (ws : list Z) :
  Forall (fun w => 0 <= w <= 65535) ws ->
  forall a, 0 <= a <= 65535 ->
  0 <= fold_left ones_add ws a <= 65535 /\
  (exists k, fold_left ones_add ws a = a + Zsum ws - 65535 * k) /\
  (fold_left ones_add ws a = 0 -> a + Zsum ws = 0).
Proof.
  induction 1 as [|w ws Hw Hws IH]; intros a Ha.
  - cbn. repeat split; try lia. exists 0. lia.
  - cbn [fold_left Zsum fold_right]. fold (Zsum ws).
    destruct (ones_add_spec a w Ha Hw) as (Hr & [k Hk] & Hz).
    destruct (IH _ Hr) as (Hr' & [k' Hk'] & Hz').
    repeat split; try lia.
    + exists (k + k'). lia.
    + intros H0. specialize (Hz' H0).
      assert (0 <= Zsum ws).
      { clear - Hws. induction Hws; cbn; [lia | fold (Zsum l); lia]. }
      lia.
Qed.

(** A range whose big-endian words add up to a positive multiple of
    2^16 - 1 has one's-complement sum 0xFFFF. *)
Lemma ones_complement_sum_FFFF (p : list byte) (m : Z) :
  0 < Zsum (be_words p) ->
  Zsum (be_words p) = 65535 * m ->
  ones_complement_sum p = 0xFFFF.
Proof.
  intros Hpos Hm. unfold ones_complement_sum.
  destruct (ones_fold_spec (be_words p) (be_words_range p) 0 ltac:(lia))
    as (Hr & [k Hk] & Hz).
  lia.
Qed.

(** ** A checksum stored in place verifies *)

Lemma memcpy_all (src : list byte) (n : Z) :
  n = Z.of_nat (List.length src) -> memcpy src n = src.
Proof.
  intros ->. unfold memcpy. rewrite Nat2Z.id. apply firstn_all.
Qed.

(** Take a range with a zeroed 16-bit field at an even offset, compute
    [checksum] over it and store the result in the field: a receiver that
    sums the range as big-endian words finds 0xFFFF. *)
Lemma checksum_in_place (pre post : list byte) :
  Nat.even (List.length pre) = true ->
  Z.of_nat (List.length (pre ++ [x00; x00] ++ post)) <= 65535 ->
  ones_complement_sum
    (pre ++ le16 (checksum (pre ++ [x00; x00] ++ post)
                    (Z.of_nat (List.length (pre ++ [x00; x00] ++ post))))
         ++ post) = 0xFFFF.
Proof.
  intros He Hlen.
  set (buf := pre ++ [x00; x00] ++ post) in *.
  set (n := Z.of_nat (List.length buf)) in *.
  pose proof (le_words_sum_bound buf) as [_ Hb]. fold n in Hb.
  destruct (checksum_complement buf n) as (Hc & k & Hk & Hsum).
  { unfold n. rewrite Nat2Z.id, firstn_all. lia. }
  unfold n in Hsum at 1. rewrite Nat2Z.id, firstn_all in Hsum.
  set (c := checksum buf n) in *.
  assert (Hle : Zsum (le_words (pre ++ le16 c ++ post))
                = Zsum (le_words buf) + c).
  { unfold buf.
    rewrite (le_words_app pre (le16 c ++ post)),
            (le_words_app pre ([x00; x00] ++ post)) by exact He.
    rewrite !Zsum_app. unfold le16. cbn [app le_words].
    rewrite !Zsum_cons, load16_le16 by lia.
    change (load16 x00 x00) with 0. lia. }
  destruct (be_le_words_sum (pre ++ le16 c ++ post)) as [k' Hbe].
  pose proof (le_be_words_sum (pre ++ le16 c ++ post)) as Hpos.
  apply ones_complement_sum_FFFF with (m := 256 * k - k'); lia.
Qed.

(** ** Byte order *)

Lemma Z_to_byte_eq (a b : Z) : a mod 256 = b mod 256 -> Z_to_byte a = Z_to_byte b.
Proof.
  intros H. rewrite <- (Z_to_byte_mod a), <- (Z_to_byte_mod b), H. reflexivity.
Qed.

Lemma lor_mul_add (a b n : Z) :
  0 <= n -> 0 <= b < 2 ^ n -> Z.lor (a * 2 ^ n) b = a * 2 ^ n + b.
Proof.
  intros Hn Hb.
  assert (Hland : Z.land (a * 2 ^ n) b = 0).
  { apply Z.bits_inj'. intros i Hi.
    rewrite Z.land_spec, Z.bits_0, <- Z.shiftl_mul_pow2 by lia.
    destruct (Z.lt_ge_cases i n) as [Hlt | Hge].
    - rewrite Z.shiftl_spec_low by lia. reflexivity.
    - rewrite <- (Z.mod_small b (2 ^ n)) by lia.
      rewrite Z.mod_pow2_bits_high by lia. apply andb_false_r. }
  rewrite <- Z.lxor_lor by exact Hland.
  symmetry. apply Z.add_nocarry_lxor. exact Hland.
Qed.

Lemma htons_arith (x : Z) :
  0 <= x < 65536 -> htons x = 256 * (x mod 256) + x / 256.
Proof.
  intros Hx. unfold htons, uint16. rewrite (Z.mod_small x) by lia.
  change 0xFF with (Z.ones 8). rewrite Z.land_ones by lia.
  rewrite Z.shiftl_mul_pow2, Z.shiftr_div_pow2 by lia.
  rewrite lor_mul_add; [change (2 ^ 8) with 256; lia | lia |].
  change (2 ^ 8) with 256.
  split; [apply Z.div_pos; lia | apply Z.div_lt_upper_bound; lia].
Qed.

Lemma htonl_arith (x : Z) :
  0 <= x < 2 ^ 32 ->
  htonl x = 2 ^ 24 * (x mod 2 ^ 8) + 2 ^ 16 * ((x / 2 ^ 8) mod 2 ^ 8)
            + 2 ^ 8 * ((x / 2 ^ 16) mod 2 ^ 8) + x / 2 ^ 24.
Proof.
  intros Hx. unfold htonl, uint32. rewrite (Z.mod_small x) by lia.
  change 0xFF with (Z.ones 8). rewrite !Z.land_ones by lia.
  rewrite !Z.shiftl_mul_pow2, !Z.shiftr_div_pow2 by lia.
  assert (H0 : 0 <= x mod 2 ^ 8 < 2 ^ 8) by (apply Z.mod_pos_bound; lia).
  assert (H1 : 0 <= (x / 2 ^ 8) mod 2 ^ 8 < 2 ^ 8)
    by (apply Z.mod_pos_bound; lia).
  assert (H2 : 0 <= (x / 2 ^ 16) mod 2 ^ 8 < 2 ^ 8)
    by (apply Z.mod_pos_bound; lia).
  assert (H3 : 0 <= x / 2 ^ 24 < 2 ^ 8).
  { split; [apply Z.div_pos; lia | apply Z.div_lt_upper_bound; lia]. }
  rewrite (lor_mul_add ((x / 2 ^ 16) mod 2 ^ 8) (x / 2 ^ 24) 8) by lia.
  rewrite (lor_mul_add (x mod 2 ^ 8) ((x / 2 ^ 8) mod 2 ^ 8 * 2 ^ 16) 24)
    by lia.
  replace (x mod 2 ^ 8 * 2 ^ 24 + (x / 2 ^ 8) mod 2 ^ 8 * 2 ^ 16)
    with ((x mod 2 ^ 8 * 2 ^ 8 + (x / 2 ^ 8) mod 2 ^ 8) * 2 ^ 16) by lia.
  rewrite lor_mul_add by lia. lia.
Qed.

(** On the wire a field assigned [htons x] reads [x] most significant byte
    first. *)
Lemma le16_htons (x : Z) : 0 <= x < 65536 -> le16 (htons x) = be16 x.
Proof.
  intros Hx. unfold le16, be16. rewrite htons_arith by exact Hx.
  rewrite !Z.shiftr_div_pow2 by lia. change (2 ^ 8) with 256.
  f_equal; [| f_equal]; apply Z_to_byte_eq; Z.div_mod_to_equations; lia.
Qed.

Lemma le32_htonl (x : Z) : 0 <= x < 2 ^ 32 -> le32 (htonl x) = be32 x.
Proof.
  intros Hx. unfold le32, be32. rewrite htonl_arith by exact Hx.
  rewrite !Z.shiftr_div_pow2 by lia.
  f_equal; [| f_equal; [| f_equal; [| f_equal]]]; apply Z_to_byte_eq;
    change (2 ^ 8) with 256; change (2 ^ 16) with 65536;
    change (2 ^ 24) with 16777216; change (2 ^ 32) with 4294967296 in Hx;
    Z.div_mod_to_equations; lia.
Qed.

Lemma byte_at_app (u w : list byte) (k : nat) :
  byte_at (u ++ w) (List.length u + k) = byte_at w k.
Proof.
  unfold byte_at. rewrite app_nth2_plus. reflexivity.
Qed.

Lemma byte_at_app_0 (u w : list byte) :
  byte_at (u ++ w) (List.length u) = byte_at w 0.
Proof.
  rewrite <- (byte_at_app u w 0), Nat.add_0_r. reflexivity.
Qed.

Lemma be16_at_be16 (x : Z) (u v : list byte) (off : nat) :
  0 <= x < 65536 -> List.length u = off ->
  be16_at (u ++ be16 x ++ v) off = x.
Proof.
  intros Hx <-. unfold be16_at.
  rewrite byte_at_app_0, byte_at_app.
  unfold byte_at. cbn [be16 app nth]. rewrite !byte_to_Z_to_byte.
  rewrite Z.shiftr_div_pow2 by lia. change (2 ^ 8) with 256.
  Z.div_mod_to_equations; lia.
Qed.

Lemma be32_at_be32 (x : Z) (u v : list byte) (off : nat) :
  0 <= x < 2 ^ 32 -> List.length u = off ->
  be32_at (u ++ be32 x ++ v) off = x.
Proof.
  intros Hx <-. unfold be32_at.
  rewrite byte_at_app_0, !byte_at_app.
  unfold byte_at. cbn [be32 app nth]. rewrite !byte_to_Z_to_byte.
  rewrite !Z.shiftr_div_pow2 by lia.
  change (2 ^ 8) with 256; change (2 ^ 16) with 65536;
    change (2 ^ 24) with 16777216; change (2 ^ 32) with 4294967296 in Hx.
  Z.div_mod_to_equations; lia.
Qed.

(** ** The layout of what send_tcp_packet builds *)

Lemma ip_header_bytes_length (h : ip_header) :
  List.length (ip_header_bytes h) = 20%nat.
Proof. reflexivity. Qed.

Lemma tcp_header_bytes_length (t : tcp_header) :
  List.length (tcp_header_bytes t) = 20%nat.
Proof. reflexivity. Qed.

Lemma pseudo_header_bytes_length (p : pseudo_header) :
  List.length (pseudo_header_bytes p) = 12%nat.
Proof. reflexivity. Qed.

Lemma uint16_small (z : Z) : 0 <= z < 65536 -> uint16 z = z.
Proof. intros H. unfold uint16. apply Z.mod_small. exact H. Qed.

Section Call.

Variables source_address source_port destination_address destination_port
  sequence_number acknowledgement_number flags : Z.
Variable data : list byte.

Let tcph0 := send_tcph_init source_port destination_port sequence_number
               acknowledgement_number flags.

(** The 20 bytes of the finished IP header. *)
Lemma send_iph_bytes (data_length : Z) :
  ip_header_bytes (send_iph source_address destination_address data_length) =
  [x45; x00] ++ le16 (htons (send_total_length data_length))
  ++ [x00; x00; x00; x00; x40; x06]
  ++ le16 (checksum
             (ip_header_bytes
                (send_iph_init source_address destination_address data_length))
             sizeof_ip_header)
  ++ le32 source_address ++ le32 destination_address.
Proof. reflexivity. Qed.

(** The 20 bytes of the finished TCP header. *)
Lemma send_tcph_bytes (data_length : Z) :
  tcp_header_bytes
    (send_tcph source_address destination_address source_port destination_port
       sequence_number acknowledgement_number flags data data_length) =
  le16 source_port ++ le16 destination_port
  ++ le32 sequence_number ++ le32 acknowledgement_number
  ++ [x50; Z_to_byte (tcp_flags_byte tcph0)]
  ++ [x80; x00]
  ++ le16 (tcph_checksum
             (send_tcph source_address destination_address source_port
                destination_port sequence_number acknowledgement_number flags
                data data_length))
  ++ [x00; x00].
Proof. reflexivity. Qed.

(** The 12 bytes of the pseudo-header. *)
Lemma send_ph_bytes (data_length : Z) :
  pseudo_header_bytes
    (send_ph source_address destination_address source_port destination_port
       sequence_number acknowledgement_number flags data data_length) =
  le32 source_address ++ le32 destination_address
  ++ [x00; x06]
  ++ le16 (htons (sizeof_tcp_header + 0 + uint16 data_length)).
Proof. reflexivity. Qed.

(** The PDU begins with the two headers whatever the data. *)
Lemma send_PDU_headers (data_length : Z) :
  send_PDU source_address destination_address source_port destination_port
    sequence_number acknowledgement_number flags data data_length =
  ip_header_bytes (send_iph source_address destination_address data_length)
  ++ tcp_header_bytes
       (send_tcph source_address destination_address source_port
          destination_port sequence_number acknowledgement_number flags
          data data_length)
  ++ memcpy data data_length.
Proof.
  unfold send_PDU. rewrite !memcpy_all by reflexivity. reflexivity.
Qed.

End Call.

Lemma firstn_length_app (A : Type) (u v : list A) (n : nat) :
  List.length u = n -> firstn n (u ++ v) = u.
Proof.
  intros <-. rewrite firstn_app, Nat.sub_diag, firstn_all.
  cbn [firstn]. apply app_nil_r.
Qed.

Lemma skipn_length_app (A : Type) (u v : list A) (n : nat) :
  List.length u = n -> skipn n (u ++ v) = v.
Proof.
  intros <-. rewrite skipn_app, Nat.sub_diag, skipn_all.
  reflexivity.
Qed.

(** ** The IP header *)

(** C2 (P1, IP checksum self-verification).  For every source address,
    destination address and payload length at most 65495, the first 20 bytes
    of the PDU built by [send_tcp_packet], summed as ten 16-bit big-endian
    words in one's-complement arithmetic with the computed checksum in the
    header_checksum field, give 0xFFFF. *)
Theorem ip_checksum_self_verifies
    (source_address source_port destination_address destination_port
     sequence_number acknowledgement_number flags : Z)
    (data : list byte) (data_length : Z) :
  0 <= data_length <= 65495 ->
  ones_complement_sum
    (firstn 20
       (send_PDU source_address destination_address source_port
          destination_port sequence_number acknowledgement_number flags
          data data_length)) = 0xFFFF.
Proof.
  intros _.
  rewrite send_PDU_headers.
  rewrite firstn_length_app by apply ip_header_bytes_length.
  exact (checksum_in_place
           (ip_header_prefix
              (send_iph_init source_address destination_address data_length))
           (le32 source_address ++ le32 destination_address)
           eq_refl ltac:(cbn; lia)).
Qed.

Lemma ip_checksum_self_verifies_witness :
  0 <= 1 <= 65495 /\
  ones_complement_sum
    (firstn 20
       (send_PDU 0x0100000A 0x0200000A (htons 12345) (htons 80)
          (htonl 0x1000) (htonl 0) SYN ["A"%byte] 1)) = 0xFFFF.
Proof.
  split; [lia |].
  apply (ip_checksum_self_verifies 0x0100000A (htons 12345) 0x0200000A
           (htons 80) (htonl 0x1000) (htonl 0) SYN ["A"%byte] 1).
  lia.
Defined.

(** C10.  On every call the identification field of the IP header is 0:
    the initializer of [iph] does not name it, and bytes 4 and 5 of the PDU
    are 00 00. *)
Theorem ip_identification_zero
    (source_address source_port destination_address destination_port
     sequence_number acknowledgement_number flags : Z)
    (data : list byte) (data_length : Z) :
  let PDU := send_PDU source_address destination_address source_port
               destination_port sequence_number acknowledgement_number flags
               data data_length in
  iph_identification
    (send_iph source_address destination_address data_length) = 0
  /\ nth 4 PDU xff = x00
  /\ nth 5 PDU xff = x00
  /\ be16_at PDU 4 = 0.
Proof.
  cbv zeta. unfold be16_at, byte_at.
  rewrite send_PDU_headers, send_iph_bytes.
  repeat split; reflexivity.
Qed.

(** ** Lengths *)

Lemma send_total_length_exact (data_length : Z) :
  0 <= data_length <= 65495 ->
  send_total_length data_length = 20 + 20 + data_length.
Proof.
  intros H. unfold send_total_length, sizeof_ip_header, sizeof_tcp_header.
  apply uint16_small. lia.
Qed.

(** The total_length field of the IP header on the wire. *)
Lemma total_length_on_wire
    (source_address source_port destination_address destination_port
     sequence_number acknowledgement_number flags : Z)
    (data : list byte) (data_length : Z) :
  0 <= data_length <= 65495 ->
  be16_at (send_PDU source_address destination_address source_port
             destination_port sequence_number acknowledgement_number flags
             data data_length) 2 = 20 + 20 + data_length.
Proof.
  intros H.
  rewrite send_PDU_headers, send_iph_bytes.
  rewrite send_total_length_exact, le16_htons by lia.
  rewrite <- !app_assoc.
  apply be16_at_be16; [lia | reflexivity].
Qed.

(** The TCP-length field of the pseudo-header. *)
Lemma tcp_length_in_pseudo_header
    (source_address source_port destination_address destination_port
     sequence_number acknowledgement_number flags : Z)
    (data : list byte) (data_length : Z) :
  0 <= data_length <= 65495 ->
  be16_at (pseudo_header_bytes
             (send_ph source_address destination_address source_port
                destination_port sequence_number acknowledgement_number
                flags data data_length)) 10 = 20 + data_length.
Proof.
  intros H.
  rewrite send_ph_bytes.
  rewrite uint16_small by lia. unfold sizeof_tcp_header.
  replace (20 + 0 + data_length) with (20 + data_length) by lia.
  rewrite le16_htons by lia.
  rewrite <- (app_nil_r (be16 (20 + data_length))), !app_assoc, <- app_assoc.
  apply be16_at_be16; [lia | reflexivity].
Qed.

(** C5 (P3, length consistency).  For a payload of length L at most 65495,
    the total_length field of the emitted IP header reads 20 + 20 + L and the
    TCP-length field of the pseudo-header reads 20 + L, both read most
    significant byte first (network byte order). *)
Theorem length_fields_consistent
    (source_address source_port destination_address destination_port
     sequence_number acknowledgement_number flags : Z) (data : list byte) :
  let L := Z.of_nat (List.length data) in
  L <= 65495 ->
  be16_at (send_PDU source_address destination_address source_port
             destination_port sequence_number acknowledgement_number flags
             data L) 2 = 20 + 20 + L
  /\ be16_at (pseudo_header_bytes
                (send_ph source_address destination_address source_port
                   destination_port sequence_number acknowledgement_number
                   flags data L)) 10 = 20 + L.
Proof.
  intros L HL. assert (H0 : 0 <= L) by apply Nat2Z.is_nonneg.
  split.
  - apply total_length_on_wire. lia.
  - apply tcp_length_in_pseudo_header. lia.
Qed.

Lemma length_fields_consistent_witness :
  Z.of_nat (List.length ["A"%byte; "B"%byte; "C"%byte]) <= 65495 /\
  be16_at (send_PDU 0x0100000A 0x0200000A (htons 12345) (htons 80)
             (htonl 0x1000) (htonl 0) SYN ["A"%byte; "B"%byte; "C"%byte] 3) 2
  = 43.
Proof.
  split; [cbn; lia |].
  apply (length_fields_consistent 0x0100000A (htons 12345) 0x0200000A
           (htons 80) (htonl 0x1000) (htonl 0) SYN
           ["A"%byte; "B"%byte; "C"%byte]).
  cbn; lia.
Defined.

(** ** The TCP checksum *)

Section Segment.

Variables source_address source_port destination_address destination_port
  sequence_number acknowledgement_number flags : Z.
Variable data : list byte.

Let L := Z.of_nat (List.length data).
Let PDU := send_PDU source_address destination_address source_port
             destination_port sequence_number acknowledgement_number flags
             data L.
Let ph := send_ph source_address destination_address source_port
            destination_port sequence_number acknowledgement_number flags
            data L.
Let tcph := send_tcph source_address destination_address source_port
              destination_port sequence_number acknowledgement_number flags
              data L.
Let tcph0 := send_tcph_init source_port destination_port sequence_number
               acknowledgement_number flags.

Hypothesis HL : L <= 65495.

Lemma send_PDU_layout :
  PDU = ip_header_bytes (send_iph source_address destination_address L)
        ++ tcp_header_bytes tcph ++ data.
Proof.
  unfold PDU. rewrite send_PDU_headers.
  rewrite (memcpy_all data L) by reflexivity. reflexivity.
Qed.

(** The segment on the wire is the TCP header followed by the data. *)
Lemma tcp_segment_send : tcp_segment PDU = tcp_header_bytes tcph ++ data.
Proof.
  unfold tcp_segment. rewrite send_PDU_layout.
  apply skipn_length_app. apply ip_header_bytes_length.
Qed.

(** The pseudo-header the code checksums is the one a receiver forms from
    the wire. *)
Lemma wire_pseudo_header_send : wire_pseudo_header PDU = pseudo_header_bytes ph.
Proof.
  assert (H0 : 0 <= L) by apply Nat2Z.is_nonneg.
  assert (Hlen : be16_at PDU 2 = 20 + 20 + L).
  { apply total_length_on_wire. lia. }
  unfold wire_pseudo_header. rewrite Hlen.
  replace (20 + 20 + L - 20) with (20 + L) by lia.
  change [Z_to_byte (Z.shiftr (20 + L) 8); Z_to_byte (20 + L)]
    with (be16 (20 + L)).
  rewrite <- le16_htons by lia.
  unfold ph. rewrite send_ph_bytes, uint16_small by (fold L; lia).
  unfold sizeof_tcp_header. replace (20 + 0 + L) with (20 + L) by lia.
  rewrite send_PDU_layout, send_iph_bytes.
  reflexivity.
Qed.

(** The range [build_tcp_checksum] hands to [checksum]. *)
Lemma send_tcph_checksum :
  tcph_checksum tcph =
  checksum
    ((pseudo_header_bytes ph ++ tcp_header_prefix tcph0)
     ++ [x00; x00] ++ [x00; x00] ++ data)
    (Z.of_nat
       (List.length
          ((pseudo_header_bytes ph ++ tcp_header_prefix tcph0)
           ++ [x00; x00] ++ [x00; x00] ++ data))).
Proof.
  assert (H0 : 0 <= L) by apply Nat2Z.is_nonneg.
  unfold tcph, send_tcph, build_tcp_checksum.
  cbn [tcph_checksum set_tcph_checksum].
  fold tcph0. fold ph. unfold csum_buffer.
  rewrite (uint16_small L) by lia.
  rewrite (memcpy_all (pseudo_header_bytes ph)) by reflexivity.
  rewrite (memcpy_all (tcp_header_bytes tcph0)) by reflexivity.
  rewrite (memcpy_all data) by reflexivity.
  replace (sizeof_pseudo_header + sizeof_tcp_header + L)
    with (Z.of_nat
            (List.length
               (pseudo_header_bytes ph ++ tcp_header_bytes tcph0 ++ data))).
  - rewrite <- app_assoc. reflexivity.
  - rewrite !length_app, !Nat2Z.inj_add.
    rewrite pseudo_header_bytes_length, tcp_header_bytes_length. fold L.
    unfold sizeof_pseudo_header, sizeof_tcp_header. lia.
Qed.

Lemma tcp_checksum_range :
  ones_complement_sum (wire_pseudo_header PDU ++ tcp_segment PDU) = 0xFFFF.
Proof.
  assert (H0 : 0 <= L) by apply Nat2Z.is_nonneg.
  rewrite wire_pseudo_header_send, tcp_segment_send.
  change (tcp_header_bytes tcph)
    with (tcp_header_prefix tcph0 ++ le16 (tcph_checksum tcph) ++ [x00; x00]).
  rewrite send_tcph_checksum.
  rewrite <- !app_assoc.
  rewrite (app_assoc (pseudo_header_bytes ph) (tcp_header_prefix tcph0)).
  rewrite (app_assoc (pseudo_header_bytes ph) (tcp_header_prefix tcph0)).
  apply (checksum_in_place
           (pseudo_header_bytes ph ++ tcp_header_prefix tcph0)
           ([x00; x00] ++ data)).
  - reflexivity.
  - rewrite !length_app, !Nat2Z.inj_add.
    rewrite pseudo_header_bytes_length.
    change (List.length (tcp_header_prefix tcph0)) with 16%nat.
    change (List.length [x00; x00]) with 2%nat.
    fold L. lia.
Qed.

(** For such a payload [total_length] is the size of the PDU: the whole of
    it is handed to [sendto]. *)
Lemma send_tcp_packet_hands_over_PDU (env : environment) :
  In (Esendto (socket env AF_INET SOCK_RAW IPPROTO_RAW) PDU 0
        {| sin_family := AF_INET;
           sin_port := destination_port;
           sin_address := destination_address |})
     (send_tcp_packet env source_address source_port destination_address
        destination_port sequence_number acknowledgement_number flags
        data L).
Proof.
  assert (H0 : 0 <= L) by apply Nat2Z.is_nonneg.
  unfold send_tcp_packet. cbv zeta. fold PDU.
  rewrite (memcpy_all PDU).
  - apply in_or_app. right. apply in_or_app. right. left. reflexivity.
  - rewrite send_total_length_exact by lia.
    rewrite send_PDU_layout, !length_app, !Nat2Z.inj_add.
    rewrite ip_header_bytes_length, tcp_header_bytes_length. fold L. lia.
Qed.

End Segment.

(** C1 (P2, TCP checksum self-verification).  For every call of
    [send_tcp_packet] with a payload of at most 65495 bytes, the
    one's-complement sum over pseudo-header, TCP header (checksum in place)
    and payload, read as 16-bit big-endian words with an odd trailing byte
    padded by a zero byte, is 0xFFFF.  The pseudo-header is the one a
    receiver forms from the IP header of the PDU, and it is the same byte
    for byte as the one the code builds. *)
Theorem tcp_checksum_self_verifies
    (source_address source_port destination_address destination_port
     sequence_number acknowledgement_number flags : Z) (data : list byte) :
  let L := Z.of_nat (List.length data) in
  let PDU := send_PDU source_address destination_address source_port
               destination_port sequence_number acknowledgement_number flags
               data L in
  let ph := send_ph source_address destination_address source_port
              destination_port sequence_number acknowledgement_number flags
              data L in
  L <= 65495 ->
  wire_pseudo_header PDU = pseudo_header_bytes ph
  /\ ones_complement_sum (pseudo_header_bytes ph ++ tcp_segment PDU) = 0xFFFF.
Proof.
  intros L PDU ph HL. split.
  - apply wire_pseudo_header_send. exact HL.
  - unfold ph. rewrite <- wire_pseudo_header_send by exact HL.
    apply tcp_checksum_range. exact HL.
Qed.

Lemma tcp_checksum_self_verifies_witness :
  Z.of_nat (List.length ["A"%byte]) <= 65495 /\
  ones_complement_sum
    (pseudo_header_bytes
       (send_ph 0x0100000A 0x0200000A (htons 12345) (htons 80) (htonl 0)
          (htonl 1) 0x12 ["A"%byte] 1)
     ++ tcp_segment
          (send_PDU 0x0100000A 0x0200000A (htons 12345) (htons 80) (htonl 0)
             (htonl 1) 0x12 ["A"%byte] 1)) = 0xFFFF.
Proof.
  split; [cbn; lia |].
  apply (tcp_checksum_self_verifies 0x0100000A (htons 12345) 0x0200000A
           (htons 80) (htonl 0) (htonl 1) 0x12 ["A"%byte]).
  cbn; lia.
Defined.

(** ** The flags byte *)

Lemma tcp_flags_byte_send
    (source_port destination_port sequence_number acknowledgement_number
     flags : Z) :
  tcp_flags_byte
    (send_tcph_init source_port destination_port sequence_number
       acknowledgement_number flags) = Z.land flags 0x3F.
Proof.
  unfold tcp_flags_byte, bitfield.
  cbn [send_tcph_init tcph_fin tcph_syn tcph_rst tcph_psh tcph_ack tcph_urg
       tcph_reserved2].
  apply Z.bits_inj'. intros i Hi.
  assert (Hcase : i = 0 \/ i = 1 \/ i = 2 \/ i = 3 \/ i = 4 \/ i = 5 \/ 6 <= i)
    by lia.
  rewrite !Z.lor_spec, !Z.shiftl_spec, !Z.land_spec by lia.
  destruct Hcase as [-> | [-> | [-> | [-> | [-> | [-> | Hge]]]]]].
  1-6: cbn - [Z.testbit Z.shiftr Z.land];
       rewrite ?Z.shiftr_spec, ?Z.land_spec by lia; cbn;
       rewrite ?andb_false_r, ?orb_false_r, ?andb_true_r, ?orb_false_l;
       reflexivity.
  change 63 with (Z.ones 6).
  rewrite (Z.ones_spec_high 6 i), !(Z.ones_spec_high 1), Z.bits_0 by lia.
  rewrite !andb_false_r. reflexivity.
Qed.

Lemma land_low_small (f n : Z) : 0 <= n -> 0 <= Z.land f (Z.ones n) < 2 ^ n.
Proof.
  intros Hn. rewrite Z.land_ones by exact Hn.
  apply Z.mod_pos_bound. apply Z.pow_pos_nonneg; lia.
Qed.

(** C6 (P4, flag bits).  For every flags byte [flags], byte 13 of the
    emitted TCP header (offset 33 of the PDU) is [flags] with its two high
    bits cleared: each of FIN, SYN, RST, PSH, ACK, URG is set in it exactly
    when it is set in [flags], and bits 6 and 7 are 0. *)
Theorem flags_byte_low_six_bits
    (source_address source_port destination_address destination_port
     sequence_number acknowledgement_number flags : Z)
    (data : list byte) (data_length : Z) :
  let b := byte_at (send_PDU source_address destination_address source_port
                      destination_port sequence_number acknowledgement_number
                      flags data data_length) 33 in
  b = Z.land flags 0x3F
  /\ Z.land b FIN = Z.land flags FIN
  /\ Z.land b SYN = Z.land flags SYN
  /\ Z.land b RST = Z.land flags RST
  /\ Z.land b PSH = Z.land flags PSH
  /\ Z.land b ACK = Z.land flags ACK
  /\ Z.land b URG = Z.land flags URG
  /\ Z.land b 0xC0 = 0.
Proof.
  intros b.
  assert (Hb : b = Z.land flags 0x3F).
  { unfold b. rewrite send_PDU_headers.
    change 33%nat
      with (List.length
              (ip_header_bytes
                 (send_iph source_address destination_address data_length))
            + 13)%nat.
    rewrite byte_at_app, send_tcph_bytes.
    unfold byte_at.
    change (byte_to_Z
              (Z_to_byte
                 (tcp_flags_byte
                    (send_tcph_init source_port destination_port
                       sequence_number acknowledgement_number flags)))
            = Z.land flags 0x3F).
    rewrite byte_to_Z_to_byte, tcp_flags_byte_send.
    apply Z.mod_small.
    pose proof (land_low_small flags 6 ltac:(lia)) as H.
    change (Z.ones 6) with 0x3F in H. lia. }
  rewrite Hb, <- !Z.land_assoc.
  unfold FIN, SYN, RST, PSH, ACK, URG.
  repeat split; try reflexivity.
  apply Z.land_0_r.
Qed.

(** ** Byte order of ports and sequence numbers *)

Lemma be16_at_app (u w : list byte) (k : nat) :
  be16_at (u ++ w) (List.length u + k) = be16_at w k.
Proof.
  unfold be16_at. rewrite <- Nat.add_assoc, !byte_at_app. reflexivity.
Qed.

Lemma be32_at_app (u w : list byte) (k : nat) :
  be32_at (u ++ w) (List.length u + k) = be32_at w k.
Proof.
  unfold be32_at. rewrite <- !Nat.add_assoc, !byte_at_app. reflexivity.
Qed.

(** C3, as the code has it.  [send_tcp_packet] stores its port, sequence
    and acknowledgement arguments as they are given; the byte swap is made
    by the caller, as [main] does with [htons] and [htonl].  When the
    arguments are [htons p], [htons q], [htonl s], [htonl a] for host-order
    values in range, the fields of the PDU read as big-endian integers are
    [p], [q], [s], [a]. *)
Theorem byte_order_of_swapped_arguments
    (source_address destination_address p q s a flags : Z)
    (data : list byte) (data_length : Z) :
  0 <= p < 2 ^ 16 -> 0 <= q < 2 ^ 16 -> 0 <= s < 2 ^ 32 -> 0 <= a < 2 ^ 32 ->
  let PDU := send_PDU source_address destination_address (htons p) (htons q)
               (htonl s) (htonl a) flags data data_length in
  be16_at PDU 20 = p /\ be16_at PDU 22 = q
  /\ be32_at PDU 24 = s /\ be32_at PDU 28 = a.
Proof.
  intros Hp Hq Hs Ha PDU.
  change (2 ^ 16) with 65536 in *.
  unfold PDU. rewrite send_PDU_headers, send_tcph_bytes.
  rewrite !le16_htons, !le32_htonl by assumption.
  rewrite <- !app_assoc.
  set (iphb := ip_header_bytes
                 (send_iph source_address destination_address data_length)).
  change 28%nat with (List.length iphb + 8)%nat.
  change 24%nat with (List.length iphb + 4)%nat.
  change 22%nat with (List.length iphb + 2)%nat.
  change 20%nat with (List.length iphb + 0)%nat.
  rewrite !be16_at_app, !be32_at_app.
  match goal with
  | |- context [be32 a ++ ?r] => set (rest := r)
  end.
  repeat split.
  - apply (be16_at_be16 p []); [assumption | reflexivity].
  - apply (be16_at_be16 q (be16 p)); [assumption | reflexivity].
  - apply (be32_at_be32 s (be16 p ++ be16 q)); [assumption | reflexivity].
  - apply (be32_at_be32 a (be16 p ++ be16 q ++ be32 s));
      [assumption | reflexivity].
Qed.

Lemma byte_order_of_swapped_arguments_witness :
  (0 <= 12345 < 2 ^ 16 /\ 0 <= 80 < 2 ^ 16
   /\ 0 <= 0x1000 < 2 ^ 32 /\ 0 <= 0 < 2 ^ 32)
  /\ be16_at (send_PDU 0x0100000A 0x0200000A (htons 12345) (htons 80)
                (htonl 0x1000) (htonl 0) SYN [] 0) 20 = 12345.
Proof.
  split; [lia |].
  apply (byte_order_of_swapped_arguments 0x0100000A 0x0200000A 12345 80
           0x1000 0 SYN [] 0); lia.
Defined.

(** C3, as stated, fails: a host-order source port 12345 (0x3039) given to
    [send_tcp_packet] is laid down low byte first, and the source-port field
    of the PDU read as a big-endian integer is 0x3930 = 14640. *)
Lemma byte_order_host_arguments_counterexample :
  let PDU := send_PDU 0x0100000A 0x0200000A 12345 80 0x1000 0 SYN [] 0 in
  be16_at PDU 20 = 14640 /\ be16_at PDU 20 <> 12345
  /\ be16_at PDU 22 <> 80 /\ be32_at PDU 24 <> 0x1000.
Proof.
  vm_compute. repeat split; discriminate.
Qed.

(** ** checksum on short and padded ranges *)

Lemma int32_range (z : Z) : - 2 ^ 31 <= int32 z < 2 ^ 31.
Proof.
  unfold int32.
  pose proof (Z.mod_pos_bound (z + 2 ^ 31) (2 ^ 32) ltac:(lia)). lia.
Qed.

Lemma checksum_loop_range (p : list byte) :
  forall sum, - 2 ^ 31 <= sum < 2 ^ 31 ->
  - 2 ^ 31 <= checksum_loop p sum < 2 ^ 31.
Proof.
  induction p as [| a | a b p IH] using list_pair_ind; intros sum Hs;
    cbn [checksum_loop].
  - exact Hs.
  - apply int32_range.
  - apply IH. apply int32_range.
Qed.

(** Zero bytes leave the accumulator as it is. *)
Lemma checksum_loop_zeros (z : list byte) :
  (forall x, In x z -> x = x00) ->
  forall sum, - 2 ^ 31 <= sum < 2 ^ 31 -> checksum_loop z sum = sum.
Proof.
  induction z as [| a | a b z IH] using list_pair_ind; intros Hz sum Hs;
    cbn [checksum_loop].
  - reflexivity.
  - rewrite (Hz a) by (left; reflexivity).
    change (load16 x00 x00) with 0. rewrite Z.add_0_r.
    apply int32_small. exact Hs.
  - rewrite (Hz a), (Hz b) by (cbn; auto).
    change (load16 x00 x00) with 0. rewrite Z.add_0_r.
    rewrite int32_small by exact Hs.
    apply IH; [| exact Hs]. intros x Hx. apply Hz. right. right. exact Hx.
Qed.

Lemma checksum_loop_app_zeros (p z : list byte) :
  (forall x, In x z -> x = x00) ->
  forall sum, - 2 ^ 31 <= sum < 2 ^ 31 ->
  checksum_loop (p ++ z) sum = checksum_loop p sum.
Proof.
  intros Hz.
  induction p as [| a | a b p IH] using list_pair_ind; intros sum Hs.
  - cbn [app checksum_loop]. apply checksum_loop_zeros; assumption.
  - destruct z as [| y z].
    + reflexivity.
    + cbn [app checksum_loop].
      rewrite (Hz y) by (left; reflexivity).
      apply checksum_loop_zeros; [| apply int32_range].
      intros x Hx. apply Hz. right. exact Hx.
  - cbn [app checksum_loop]. apply IH. apply int32_range.
Qed.

(** Trailing zero bytes do not change what [checksum] returns. *)
Lemma checksum_app_zeros (b : list byte) (k : nat) :
  checksum (b ++ repeat x00 k)
    (Z.of_nat (List.length (b ++ repeat x00 k)))
  = checksum b (Z.of_nat (List.length b)).
Proof.
  unfold checksum. rewrite !Nat2Z.id, !firstn_all.
  rewrite checksum_loop_app_zeros; [reflexivity | | lia].
  intros x Hx. apply (repeat_spec _ _ _ Hx).
Qed.

(** C7.  For a byte range of odd length, [checksum] of the range equals
    [checksum] of the range with one zero byte appended; and any number of
    trailing zero bytes leaves the value unchanged. *)
Theorem checksum_odd_padding (b : list byte) :
  Nat.odd (List.length b) = true ->
  checksum (b ++ [x00]) (Z.of_nat (List.length b) + 1)
  = checksum b (Z.of_nat (List.length b))
  /\ forall k : nat,
       checksum (b ++ repeat x00 k) (Z.of_nat (List.length b + k))
       = checksum b (Z.of_nat (List.length b)).
Proof.
  intros _. split.
  - replace (Z.of_nat (List.length b) + 1)
      with (Z.of_nat (List.length (b ++ repeat x00 1)))
      by (rewrite length_app; cbn [repeat List.length]; lia).
    apply (checksum_app_zeros b 1).
  - intros k.
    replace (List.length b + k)%nat with (List.length (b ++ repeat x00 k))
      by (rewrite length_app, repeat_length; reflexivity).
    apply checksum_app_zeros.
Qed.

Lemma checksum_odd_padding_witness :
  Nat.odd (List.length ["A"%byte; "B"%byte; "C"%byte]) = true /\
  checksum (["A"%byte; "B"%byte; "C"%byte] ++ [x00])
    (Z.of_nat (List.length ["A"%byte; "B"%byte; "C"%byte]) + 1)
  = checksum ["A"%byte; "B"%byte; "C"%byte]
      (Z.of_nat (List.length ["A"%byte; "B"%byte; "C"%byte])).
Proof.
  split; [reflexivity |].
  exact (proj1 (checksum_odd_padding ["A"%byte; "B"%byte; "C"%byte] eq_refl)).
Defined.

(** C8.  [checksum] over an empty range ([num_bytes] = 0) returns 0xFFFF,
    whatever [p] points to. *)
Theorem checksum_empty (p : list byte) : checksum p 0 = 0xFFFF.
Proof. reflexivity. Qed.

(** ** Failures *)

(** C4, as the code has it.  [send_tcp_packet] has no check of the payload
    length and no payload-too-large error: for every payload and length it
    builds the 20-byte IP header and reaches [sendto], and the only errors
    it reports are the two that come from the socket calls. *)
Theorem send_tcp_packet_never_rejects (env : environment)
    (source_address source_port destination_address destination_port
     sequence_number acknowledgement_number flags : Z)
    (data : list byte) (data_length : Z) :
  let trace := send_tcp_packet env source_address source_port
                 destination_address destination_port sequence_number
                 acknowledgement_number flags data data_length in
  List.length
    (ip_header_bytes
       (send_iph source_address destination_address data_length)) = 20%nat
  /\ (exists sockfd buf dest, In (Esendto sockfd buf 0 dest) trace)
  /\ (forall msg, In (Estderr msg) trace ->
      msg = "Error creating socket"%string
      \/ msg = "Error sending packet"%string).
Proof.
  intros trace. unfold trace, send_tcp_packet. cbv zeta.
  split; [reflexivity |]. split.
  - do 3 eexists. apply in_or_app. right.
    apply in_or_app. right. left. reflexivity.
  - intros msg Hin.
    repeat (apply in_app_or in Hin; destruct Hin as [Hin | Hin]).
    + destruct Hin as [Hin | []]. discriminate Hin.
    + destruct (_ <? 0); [| destruct Hin].
      destruct Hin as [Hin | []]. injection Hin as <-. left. reflexivity.
    + destruct Hin as [Hin | []]. discriminate Hin.
    + destruct (_ <? 0); [| destruct Hin].
      destruct Hin as [Hin | []]. injection Hin as <-. right. reflexivity.
Qed.

(** C4, as stated, fails: with both socket calls succeeding, a payload of
    65516 bytes is not rejected.  The trace is the socket call followed by
    the [sendto] call, with nothing on stderr. *)
Lemma payload_too_large_counterexample :
  Z.of_nat (List.length payload_65516) = 65516
  /\ exists buf dest,
       send_tcp_packet env_ok 0x0100000A (htons 12345) 0x0200000A (htons 80)
         (htonl 0x1000) (htonl 0) SYN payload_65516 65516
       = [Esocket AF_INET SOCK_RAW IPPROTO_RAW; Esendto 3 buf 0 dest].
Proof.
  split.
  - unfold payload_65516. rewrite repeat_length. apply Z2Nat.id. lia.
  - unfold send_tcp_packet. cbv zeta.
    cbn [env_ok socket sendto].
    change (3 <? 0) with false. cbn iota.
    match goal with
    | |- context [Z.of_nat ?n <? 0] =>
        replace (Z.of_nat n <? 0) with false
          by (symmetry; apply Z.ltb_ge; apply Nat2Z.is_nonneg)
    end.
    do 2 eexists. reflexivity.
Qed.

(** C9, as the code has it.  [main] returns 1 exactly when [argc] is
    neither 5 nor 6, and 0 in every other case, whatever the socket calls
    return: [send_tcp_packet] returns nothing to it. *)
Theorem main_exit_status (env : environment) (argc : Z) (argv : list string) :
  fst (main env argc argv)
  = if ((argc =? 5) || (argc =? 6))%bool then 0 else 1.
Proof.
  unfold main.
  destruct (argc =? 5), (argc =? 6); reflexivity.
Qed.

(** C9, as stated, fails: with five arguments and a [sendto] that fails,
    the failure is written to stderr and the exit status is 0, not 1. *)
Lemma exit_status_on_send_failure_counterexample :
  let run := main env_send_fails 5
               ["send_tcp"; "10.0.0.1"; "12345"; "10.0.0.2"; "80"]%string in
  fst run = 0 /\ fst run <> 1
  /\ exists buf dest,
       snd run = [Esocket AF_INET SOCK_RAW IPPROTO_RAW;
                  Esendto 3 buf 0 dest;
                  Estderr "Error sending packet"].
Proof.
  vm_compute. repeat split; try discriminate.
  do 2 eexists. reflexivity.
Qed.

(** * Further properties of the code *)

(** ** checksum as a function of the word sum *)

(** Without overflow of the accumulator, what [checksum] returns is the
    complement of the folded sum [f]: [f] is the sum of the words reduced by
    a multiple of 2^16 - 1 into 0 .. 0xFFFF, and it is 0 only for a zero
    sum. *)
Lemma checksum_value (p : list byte) (num_bytes : Z) :
  let S := Zsum (le_words (firstn (Z.to_nat num_bytes) p)) in
  S < 2 ^ 31 ->
  exists f j, checksum p num_bytes = 65535 - f /\ 0 <= f <= 65535
              /\ 0 <= j /\ S = f + 65535 * j /\ (f = 0 -> S = 0).
Proof.
  intros S HS.
  pose proof (le_words_sum_bound (firstn (Z.to_nat num_bytes) p)) as [H0 _].
  fold S in H0.
  unfold checksum.
  rewrite checksum_loop_sum by (fold S; lia).
  fold S. rewrite Z.add_0_l.
  change 0xFFFF with (Z.ones 16). rewrite Z.land_ones by lia.
  change (Z.ones 16) with 65535.
  rewrite !Z.shiftr_div_pow2 by lia.
  change (2 ^ 16) with 65536.
  assert (Hq : 0 <= S / 65536 < 32768).
  { split; [apply Z.div_pos; lia | apply Z.div_lt_upper_bound; lia]. }
  assert (Hr : 0 <= S mod 65536 < 65536) by (apply Z.mod_pos_bound; lia).
  pose proof (Z.div_mod S 65536 ltac:(lia)) as HSdm.
  set (q := S / 65536) in *. set (r := S mod 65536) in *.
  rewrite (int32_small (q + r)) by lia.
  assert (Hq1 : 0 <= (q + r) / 65536 <= 1).
  { split; [apply Z.div_pos; lia |].
    assert ((q + r) / 65536 < 2) by (apply Z.div_lt_upper_bound; lia). lia. }
  pose proof (Z.div_mod (q + r) 65536 ltac:(lia)) as Hs1.
  assert (Hr1 : 0 <= (q + r) mod 65536 < 65536)
    by (apply Z.mod_pos_bound; lia).
  set (q1 := (q + r) / 65536) in *. set (r1 := (q + r) mod 65536) in *.
  rewrite (int32_small (q + r + q1)) by lia.
  exists (r1 + q1), (q + q1).
  assert (Hval : uint16 (int16 (Z.lnot (q + r + q1))) = 65535 - (r1 + q1)).
  { unfold uint16, int16, Z.lnot.
    change (2 ^ 16) with 65536. change (2 ^ 15) with 32768.
    Z.div_mod_to_equations. lia. }
  rewrite Hval. repeat split; lia.
Qed.

(** Two ranges whose words have the same sum have the same checksum. *)
Lemma checksum_sum_eq (p q : list byte) (n m : Z) :
  Zsum (le_words (firstn (Z.to_nat n) p))
  = Zsum (le_words (firstn (Z.to_nat m) q)) ->
  Zsum (le_words (firstn (Z.to_nat n) p)) < 2 ^ 31 ->
  checksum p n = checksum q m.
Proof.
  intros Heq Hlt.
  pose proof (le_words_sum_bound (firstn (Z.to_nat n) p)) as [H0 _].
  unfold checksum.
  rewrite !checksum_loop_sum by lia.
  rewrite Heq. reflexivity.
Qed.

Lemma firstn_length_all (p : list byte) :
  firstn (Z.to_nat (Z.of_nat (List.length p))) p = p.
Proof. rewrite Nat2Z.id. apply firstn_all. Qed.

Lemma sum_below_overflow (p : list byte) :
  Z.of_nat (List.length p) <= 65535 -> Zsum (le_words p) < 2 ^ 31.
Proof.
  intros H. pose proof (le_words_sum_bound p) as [_ Hb]. lia.
Qed.

Lemma ones_add_le (a b : Z) : 0 <= a -> 0 <= b ->
  0 <= ones_add a b <= a + b.
Proof.
  intros Ha Hb. unfold ones_add.
  change 0xFFFF with (Z.ones 16). rewrite Z.land_ones by lia.
  rewrite Z.shiftr_div_pow2 by lia. change (2 ^ 16) with 65536.
  Z.div_mod_to_equations. lia.
Qed.

Lemma ones_fold_le (ws : list Z) :
  Forall (fun w => 0 <= w <= 65535) ws ->
  forall a, 0 <= a -> fold_left ones_add ws a <= a + Zsum ws.
Proof.
  induction 1 as [|w ws Hw Hws IH]; intros a Ha.
  - cbn. lia.
  - cbn [fold_left]. rewrite Zsum_cons.
    pose proof (ones_add_le a w Ha ltac:(lia)).
    specialize (IH (ones_add a w) ltac:(lia)). lia.
Qed.

Lemma be_le_words_bound (p : list byte) :
  Zsum (be_words p) <= 256 * Zsum (le_words p).
Proof.
  induction p as [| a | a b p IH] using list_pair_ind.
  - cbn. lia.
  - cbn [be_words le_words]. rewrite !Zsum_cons. unfold load16.
    change (byte_to_Z x00) with 0. pose proof (byte_to_Z_range a).
    change (Zsum []) with 0. lia.
  - cbn [be_words le_words]. rewrite !Zsum_cons. unfold load16.
    pose proof (byte_to_Z_range a). pose proof (byte_to_Z_range b). lia.
Qed.

(** X1.  Byte-order independence of [checksum].  For a range of at most
    65535 bytes, the two bytes of the returned [uint16_t] as they lie in
    memory, read most significant byte first, are the complement of the
    one's-complement sum of the range taken as big-endian words with an odd
    last byte padded by a zero byte. *)
Theorem checksum_is_complement_of_wire_sum (p : list byte) :
  Z.of_nat (List.length p) <= 65535 ->
  be16_at (le16 (checksum p (Z.of_nat (List.length p)))) 0
  = 0xFFFF - ones_complement_sum p.
Proof.
  intros Hlen.
  destruct (checksum_value p (Z.of_nat (List.length p)))
    as (f & j & Hc & Hf & Hj & HS & Hz).
  { rewrite firstn_length_all. apply sum_below_overflow. exact Hlen. }
  rewrite firstn_length_all in HS, Hz.
  rewrite Hc.
  unfold be16_at, byte_at, le16. cbn [nth Nat.add].
  rewrite !byte_to_Z_to_byte.
  rewrite Z.shiftr_div_pow2 by lia. change (2 ^ 8) with 256.
  unfold ones_complement_sum.
  destruct (ones_fold_spec (be_words p) (be_words_range p) 0 ltac:(lia))
    as (Hr & [k Hk] & Hrz).
  pose proof (ones_fold_le (be_words p) (be_words_range p) 0 ltac:(lia))
    as Hrle.
  destruct (be_le_words_sum p) as [k' Hbe].
  pose proof (le_be_words_sum p) as Hle.
  pose proof (be_le_words_bound p) as Hbl.
  pose proof (be_words_sum_nonneg p) as Hbe0.
  set (r := fold_left ones_add (be_words p) 0) in *.
  set (B := Zsum (be_words p)) in *.
  set (S := Zsum (le_words p)) in *.
  assert (Hswap : 256 * ((65535 - f) mod 256) + ((65535 - f) / 256) mod 256
                  = 65535 - (256 * (f mod 256) + f / 256)).
  { Z.div_mod_to_equations. lia. }
  rewrite Hswap.
  assert (Hfs : exists t, 256 * (f mod 256) + f / 256 = 256 * f - 65535 * t
                          /\ 0 <= 256 * (f mod 256) + f / 256 <= 65535
                          /\ (256 * (f mod 256) + f / 256 = 0 <-> f = 0)).
  { exists (f / 256). Z.div_mod_to_equations. lia. }
  destruct Hfs as (t & Ht & Hsr & Hsz).
  pose proof (le_words_sum_bound p) as [HS0 _]. fold S in HS0.
  set (sf := 256 * (f mod 256) + f / 256) in *.
  assert (Hm : exists m, sf - r = 65535 * m).
  { exists (256 * (- j) - t + k' + k). lia. }
  destruct Hm as [m Hm].
  assert (m = 0); [| lia].
  assert (Hcases : m = -1 \/ m = 0 \/ m = 1) by lia.
  destruct Hcases as [-> | [-> | ->]]; [| reflexivity |].
  - assert (f = 0) by lia. lia.
  - assert (B = 0) by lia. lia.
Qed.

Lemma checksum_is_complement_of_wire_sum_witness :
  Z.of_nat (List.length ["E"%byte; x00; x00]) <= 65535 /\
  be16_at (le16 (checksum ["E"%byte; x00; x00]
                   (Z.of_nat (List.length ["E"%byte; x00; x00])))) 0
  = 0xFFFF - ones_complement_sum ["E"%byte; x00; x00].
Proof.
  split; [cbn; lia |].
  exact (checksum_is_complement_of_wire_sum ["E"%byte; x00; x00]
           ltac:(cbn; lia)).
Defined.

(** A checksum stored in place makes [checksum] of the range 0. *)
Lemma checksum_in_place_zero (pre post : list byte) :
  Nat.even (List.length pre) = true ->
  Z.of_nat (List.length (pre ++ [x00; x00] ++ post)) <= 65535 ->
  let n := Z.of_nat (List.length (pre ++ [x00; x00] ++ post)) in
  checksum (pre ++ le16 (checksum (pre ++ [x00; x00] ++ post) n) ++ post) n
  = 0.
Proof.
  intros He Hlen n.
  set (buf := pre ++ [x00; x00] ++ post) in *.
  destruct (checksum_complement buf n) as (Hc & k & Hk & Hsum).
  { unfold n. rewrite firstn_length_all. apply sum_below_overflow.
    exact Hlen. }
  unfold n in Hsum at 1. rewrite firstn_length_all in Hsum.
  set (c := checksum buf n) in *.
  set (buf' := pre ++ le16 c ++ post).
  assert (Hn : n = Z.of_nat (List.length buf')).
  { unfold n, buf, buf'. rewrite !length_app. reflexivity. }
  assert (Hle : Zsum (le_words buf') = Zsum (le_words buf) + c).
  { unfold buf, buf'.
    rewrite (le_words_app pre (le16 c ++ post)),
            (le_words_app pre ([x00; x00] ++ post)) by exact He.
    rewrite !Zsum_app. unfold le16. cbn [app le_words].
    rewrite !Zsum_cons, load16_le16 by lia.
    change (load16 x00 x00) with 0. lia. }
  destruct (checksum_value buf' n) as (f & j & Hc' & Hf & Hj & HS & Hz).
  { rewrite Hn, firstn_length_all. apply sum_below_overflow. lia. }
  rewrite Hn, firstn_length_all in HS, Hz.
  rewrite Hc'. lia.
Qed.

(** X2.  Verifying with the same function.  Take a range of at most 65535
    bytes with a zeroed 16-bit field at an even offset and store [checksum]
    of the range in that field: [checksum] over the result is 0. *)
Theorem checksum_of_checksummed_range (pre post : list byte) :
  Nat.even (List.length pre) = true ->
  Z.of_nat (List.length (pre ++ [x00; x00] ++ post)) <= 65535 ->
  let n := Z.of_nat (List.length (pre ++ [x00; x00] ++ post)) in
  checksum (pre ++ le16 (checksum (pre ++ [x00; x00] ++ post) n) ++ post) n
  = 0.
Proof.
  intros He Hlen. apply checksum_in_place_zero; assumption.
Qed.

Lemma checksum_of_checksummed_range_witness :
  Nat.even (List.length ["E"%byte; x00]) = true /\
  Z.of_nat (List.length (["E"%byte; x00] ++ [x00; x00] ++ ["A"%byte])) <= 65535
  /\ checksum
       (["E"%byte; x00]
        ++ le16 (checksum (["E"%byte; x00] ++ [x00; x00] ++ ["A"%byte])
                   (Z.of_nat
                      (List.length
                         (["E"%byte; x00] ++ [x00; x00] ++ ["A"%byte]))))
        ++ ["A"%byte])
       (Z.of_nat (List.length (["E"%byte; x00] ++ [x00; x00] ++ ["A"%byte])))
     = 0.
Proof.
  split; [reflexivity |]. split; [cbn; lia |].
  exact (checksum_of_checksummed_range ["E"%byte; x00] ["A"%byte] eq_refl
           ltac:(cbn; lia)).
Defined.

(** X3.  [checksum] does not see the order of the 16-bit words: in a range
    of at most 65535 bytes, exchanging two adjacent blocks that both start
    at an even offset and have even length leaves the result unchanged. *)
Theorem checksum_block_exchange (a u v b : list byte) :
  Nat.even (List.length a) = true ->
  Nat.even (List.length u) = true ->
  Nat.even (List.length v) = true ->
  Z.of_nat (List.length (a ++ u ++ v ++ b)) <= 65535 ->
  checksum (a ++ v ++ u ++ b) (Z.of_nat (List.length (a ++ v ++ u ++ b)))
  = checksum (a ++ u ++ v ++ b) (Z.of_nat (List.length (a ++ u ++ v ++ b))).
Proof.
  intros Ha Hu Hv Hlen.
  assert (Hl : List.length (a ++ v ++ u ++ b)
               = List.length (a ++ u ++ v ++ b)).
  { rewrite !length_app. lia. }
  apply checksum_sum_eq.
  - rewrite !firstn_length_all.
    rewrite (le_words_app a), (le_words_app v), (le_words_app u),
            (le_words_app a), (le_words_app u), (le_words_app v)
      by assumption.
    rewrite !Zsum_app. lia.
  - rewrite firstn_length_all. apply sum_below_overflow. lia.
Qed.

Lemma checksum_block_exchange_witness :
  Nat.even (List.length (@nil byte)) = true /\
  Nat.even (List.length ["A"%byte; "B"%byte]) = true /\
  Nat.even (List.length ["C"%byte; "D"%byte]) = true /\
  Z.of_nat (List.length ([] ++ ["A"%byte; "B"%byte] ++ ["C"%byte; "D"%byte]
                         ++ ["E"%byte])) <= 65535 /\
  checksum ([] ++ ["C"%byte; "D"%byte] ++ ["A"%byte; "B"%byte] ++ ["E"%byte])
    (Z.of_nat (List.length ([] ++ ["C"%byte; "D"%byte] ++ ["A"%byte; "B"%byte]
                            ++ ["E"%byte])))
  = checksum ([] ++ ["A"%byte; "B"%byte] ++ ["C"%byte; "D"%byte] ++ ["E"%byte])
      (Z.of_nat (List.length ([] ++ ["A"%byte; "B"%byte]
                              ++ ["C"%byte; "D"%byte] ++ ["E"%byte]))).
Proof.
  repeat (split; [first [reflexivity | cbn; lia] |]).
  exact (checksum_block_exchange [] ["A"%byte; "B"%byte] ["C"%byte; "D"%byte]
           ["E"%byte] eq_refl eq_refl eq_refl ltac:(cbn; lia)).
Defined.

(** X4.  The loop of [checksum] over a range cut at an even offset: running
    it over the second part from the accumulator left by the first part
    gives what running it over the whole range gives. *)
Theorem checksum_loop_even_split (u v : list byte) (sum : Z) :
  Nat.even (List.length u) = true ->
  checksum_loop (u ++ v) sum = checksum_loop v (checksum_loop u sum).
Proof.
  revert sum.
  induction u as [| x | x y u IH] using list_pair_ind; intros sum He.
  - reflexivity.
  - discriminate He.
  - cbn [app checksum_loop]. apply IH. exact He.
Qed.

Lemma checksum_loop_even_split_witness :
  Nat.even (List.length ["A"%byte; "B"%byte]) = true /\
  checksum_loop (["A"%byte; "B"%byte] ++ ["C"%byte]) 0
  = checksum_loop ["C"%byte] (checksum_loop ["A"%byte; "B"%byte] 0).
Proof.
  split; [reflexivity |].
  exact (checksum_loop_even_split ["A"%byte; "B"%byte] ["C"%byte] 0 eq_refl).
Defined.

(** X5.  [checksum] with a count of zero or less reads nothing: neither
    the loop nor the odd-byte branch runs and the result is 0xFFFF. *)
Theorem checksum_nonpositive_count (p : list byte) (num_bytes : Z) :
  num_bytes <= 0 -> checksum p num_bytes = 0xFFFF.
Proof.
  intros H. unfold checksum.
  replace (Z.to_nat num_bytes) with 0%nat by lia.
  reflexivity.
Qed.

Lemma checksum_nonpositive_count_witness :
  -3 <= 0 /\ checksum ["A"%byte; "B"%byte] (-3) = 0xFFFF.
Proof.
  split; [lia |].
  exact (checksum_nonpositive_count ["A"%byte; "B"%byte] (-3) ltac:(lia)).
Defined.

(** X6.  The single odd-byte path.  With a count of 1, [checksum] returns
    0xFFFF less the value of the first byte: the byte is added as the low
    half of a host-order word, and nothing after it is read. *)
Theorem checksum_single_byte (b : byte) (rest : list byte) :
  checksum (b :: rest) 1 = 0xFFFF - byte_to_Z b.
Proof.
  unfold checksum. change (Z.to_nat 1) with 1%nat.
  cbn [firstn checksum_loop].
  destruct b; vm_compute; reflexivity.
Qed.

(** ** build_tcp_checksum on its own *)

Lemma csum_buffer_zero_field (ph : pseudo_header) (tcph : tcp_header)
    (data : list byte) :
  tcph_checksum tcph = 0 ->
  csum_buffer ph tcph data (Z.of_nat (List.length data))
  = (pseudo_header_bytes ph ++ tcp_header_prefix tcph)
    ++ [x00; x00] ++ le16 (tcph_urgent_pointer tcph) ++ data.
Proof.
  intros H0. unfold csum_buffer.
  rewrite (memcpy_all (pseudo_header_bytes ph)) by reflexivity.
  rewrite (memcpy_all (tcp_header_bytes tcph)) by reflexivity.
  rewrite (memcpy_all data) by reflexivity.
  unfold tcp_header_bytes. rewrite H0.
  change (le16 0) with [x00; x00].
  rewrite <- !app_assoc. reflexivity.
Qed.

(** X7.  The contract of [build_tcp_checksum].  For any pseudo-header, any
    TCP header whose checksum field is 0 on entry and any data of at most
    65503 bytes, the header it leaves verifies: the one's-complement sum of
    pseudo-header, header and data as big-endian words is 0xFFFF, and every
    other byte of the header is as it was. *)
Theorem build_tcp_checksum_verifies (ph : pseudo_header) (tcph : tcp_header)
    (options : list byte) (options_length : Z) (data : list byte) :
  tcph_checksum tcph = 0 ->
  Z.of_nat (List.length data) <= 65503 ->
  let tcph' := build_tcp_checksum ph tcph options options_length data
                 (Z.of_nat (List.length data)) in
  ones_complement_sum
    (pseudo_header_bytes ph ++ tcp_header_bytes tcph' ++ data) = 0xFFFF
  /\ firstn 16 (tcp_header_bytes tcph') = firstn 16 (tcp_header_bytes tcph)
  /\ skipn 18 (tcp_header_bytes tcph') = skipn 18 (tcp_header_bytes tcph).
Proof.
  intros H0 Hlen tcph'. split; [| split; reflexivity].
  assert (Hl : Z.of_nat (List.length
                 ((pseudo_header_bytes ph ++ tcp_header_prefix tcph)
                  ++ [x00; x00] ++ le16 (tcph_urgent_pointer tcph) ++ data))
               = sizeof_pseudo_header + sizeof_tcp_header
                 + Z.of_nat (List.length data)).
  { rewrite !length_app, !Nat2Z.inj_add.
    rewrite pseudo_header_bytes_length.
    change (List.length (tcp_header_prefix tcph)) with 16%nat.
    change (List.length [x00; x00]) with 2%nat.
    change (List.length (le16 (tcph_urgent_pointer tcph))) with 2%nat.
    unfold sizeof_pseudo_header, sizeof_tcp_header. lia. }
  change (tcp_header_bytes tcph')
    with (tcp_header_prefix tcph ++ le16 (tcph_checksum tcph')
          ++ le16 (tcph_urgent_pointer tcph)).
  unfold tcph', build_tcp_checksum. cbn [tcph_checksum set_tcph_checksum].
  rewrite csum_buffer_zero_field by exact H0.
  rewrite <- Hl.
  rewrite <- !app_assoc.
  rewrite (app_assoc (pseudo_header_bytes ph) (tcp_header_prefix tcph)).
  rewrite (app_assoc (pseudo_header_bytes ph) (tcp_header_prefix tcph)).
  apply (checksum_in_place
           (pseudo_header_bytes ph ++ tcp_header_prefix tcph)
           (le16 (tcph_urgent_pointer tcph) ++ data)).
  - reflexivity.
  - rewrite <- !app_assoc in Hl.
    rewrite (app_assoc (pseudo_header_bytes ph) (tcp_header_prefix tcph))
      in Hl.
    rewrite Hl. unfold sizeof_pseudo_header, sizeof_tcp_header. lia.
Qed.

Lemma build_tcp_checksum_verifies_witness :
  tcph_checksum (send_tcph_init 1 2 3 4 ACK) = 0 /\
  Z.of_nat (List.length ["A"%byte]) <= 65503 /\
  ones_complement_sum
    (pseudo_header_bytes
       (build_pseudo_header (send_tcph_init 1 2 3 4 ACK) ip_header_zero
          [] 0 ["A"%byte] 1)
     ++ tcp_header_bytes
          (build_tcp_checksum
             (build_pseudo_header (send_tcph_init 1 2 3 4 ACK) ip_header_zero
                [] 0 ["A"%byte] 1)
             (send_tcph_init 1 2 3 4 ACK) [] 0 ["A"%byte]
             (Z.of_nat (List.length ["A"%byte])))
     ++ ["A"%byte]) = 0xFFFF.
Proof.
  split; [reflexivity |]. split; [cbn; lia |].
  exact (proj1 (build_tcp_checksum_verifies
                  (build_pseudo_header (send_tcph_init 1 2 3 4 ACK)
                     ip_header_zero [] 0 ["A"%byte] 1)
                  (send_tcph_init 1 2 3 4 ACK) [] 0 ["A"%byte]
                  eq_refl ltac:(cbn; lia))).
Defined.

(** ** The finished PDU checked with checksum itself *)

(** [checksum] reads only the first [num_bytes] bytes. *)
Lemma checksum_prefix (u v : list byte) :
  checksum (u ++ v) (Z.of_nat (List.length u))
  = checksum u (Z.of_nat (List.length u)).
Proof.
  unfold checksum. rewrite Nat2Z.id.
  rewrite firstn_length_app by reflexivity. rewrite firstn_all. reflexivity.
Qed.

(** X8.  A receiver that runs [checksum] over what [send_tcp_packet]
    built finds 0 both times: over the 20 bytes of the IP header, and, for
    a payload of at most 65495 bytes, over pseudo-header followed by the
    TCP segment. *)
Theorem send_tcp_packet_checksums_verify
    (source_address source_port destination_address destination_port
     sequence_number acknowledgement_number flags : Z) (data : list byte) :
  let L := Z.of_nat (List.length data) in
  let PDU := send_PDU source_address destination_address source_port
               destination_port sequence_number acknowledgement_number flags
               data L in
  L <= 65495 ->
  checksum PDU sizeof_ip_header = 0
  /\ checksum (wire_pseudo_header PDU ++ tcp_segment PDU)
       (sizeof_pseudo_header + sizeof_tcp_header + L) = 0.
Proof.
  intros L PDU HL.
  assert (H0 : 0 <= L) by apply Nat2Z.is_nonneg.
  split.
  - unfold PDU. rewrite send_PDU_headers.
    change sizeof_ip_header
      with (Z.of_nat
              (List.length
                 (ip_header_bytes
                    (send_iph source_address destination_address L)))).
    rewrite checksum_prefix.
    exact (checksum_in_place_zero
             (ip_header_prefix
                (send_iph_init source_address destination_address L))
             (le32 source_address ++ le32 destination_address)
             eq_refl ltac:(cbn; lia)).
  - unfold PDU, L.
    rewrite wire_pseudo_header_send, tcp_segment_send by exact HL.
    fold L.
    set (ph := send_ph source_address destination_address source_port
                 destination_port sequence_number acknowledgement_number
                 flags data L).
    set (tcph := send_tcph source_address destination_address source_port
                   destination_port sequence_number acknowledgement_number
                   flags data L).
    set (tcph0 := send_tcph_init source_port destination_port sequence_number
                    acknowledgement_number flags).
    change (tcp_header_bytes tcph)
      with (tcp_header_prefix tcph0 ++ le16 (tcph_checksum tcph)
            ++ [x00; x00]).
    unfold tcph. rewrite send_tcph_checksum by exact HL.
    fold L. fold ph. fold tcph0.
    assert (Hl : Z.of_nat
                   (List.length
                      ((pseudo_header_bytes ph ++ tcp_header_prefix tcph0)
                       ++ [x00; x00] ++ [x00; x00] ++ data))
                 = sizeof_pseudo_header + sizeof_tcp_header + L).
    { rewrite !length_app, !Nat2Z.inj_add.
      rewrite pseudo_header_bytes_length.
      change (List.length (tcp_header_prefix tcph0)) with 16%nat.
      change (List.length [x00; x00]) with 2%nat.
      fold L. unfold sizeof_pseudo_header, sizeof_tcp_header. lia. }
    rewrite <- Hl.
    rewrite <- !app_assoc.
    rewrite (app_assoc (pseudo_header_bytes ph) (tcp_header_prefix tcph0)).
    rewrite (app_assoc (pseudo_header_bytes ph) (tcp_header_prefix tcph0)).
    apply (checksum_in_place_zero
             (pseudo_header_bytes ph ++ tcp_header_prefix tcph0)
             ([x00; x00] ++ data)).
    + reflexivity.
    + rewrite <- !app_assoc in Hl.
      rewrite (app_assoc (pseudo_header_bytes ph) (tcp_header_prefix tcph0))
        in Hl.
      rewrite Hl. unfold sizeof_pseudo_header, sizeof_tcp_header. lia.
Qed.

Lemma send_tcp_packet_checksums_verify_witness :
  Z.of_nat (List.length ["A"%byte]) <= 65495 /\
  checksum
    (send_PDU 0x0100000A 0x0200000A (htons 12345) (htons 80) (htonl 0)
       (htonl 1) 0x12 ["A"%byte] (Z.of_nat (List.length ["A"%byte])))
    sizeof_ip_header = 0.
Proof.
  split; [cbn; lia |].
  exact (proj1 (send_tcp_packet_checksums_verify 0x0100000A (htons 12345)
                  0x0200000A (htons 80) (htonl 0) (htonl 1) 0x12 ["A"%byte]
                  ltac:(cbn; lia))).
Defined.

(** ** Fields for arguments of any size *)

Lemma uint16_range (x : Z) : 0 <= uint16 x < 65536.
Proof. unfold uint16. apply Z.mod_pos_bound. lia. Qed.

Lemma uint32_range (x : Z) : 0 <= uint32 x < 2 ^ 32.
Proof. unfold uint32. apply Z.mod_pos_bound. lia. Qed.

Lemma htons_uint16 (x : Z) : htons (uint16 x) = htons x.
Proof.
  unfold htons. cbv zeta.
  replace (uint16 (uint16 x)) with (uint16 x)
    by (unfold uint16; rewrite Z.mod_mod by lia; reflexivity).
  reflexivity.
Qed.

Lemma htonl_uint32 (x : Z) : htonl (uint32 x) = htonl x.
Proof.
  unfold htonl. cbv zeta.
  replace (uint32 (uint32 x)) with (uint32 x)
    by (unfold uint32; rewrite Z.mod_mod by lia; reflexivity).
  reflexivity.
Qed.

Lemma le16_htons_any (x : Z) : le16 (htons x) = be16 (uint16 x).
Proof.
  rewrite <- htons_uint16. apply le16_htons. apply uint16_range.
Qed.

Lemma le32_htonl_any (x : Z) : le32 (htonl x) = be32 (uint32 x).
Proof.
  rewrite <- htonl_uint32. apply le32_htonl. apply uint32_range.
Qed.

Lemma htons_range (x : Z) : 0 <= htons x < 65536.
Proof.
  rewrite <- htons_uint16. pose proof (uint16_range x).
  rewrite htons_arith by assumption.
  Z.div_mod_to_equations. lia.
Qed.

Lemma htonl_pieces (y : Z) :
  0 <= y < 2 ^ 32 ->
  0 <= y mod 2 ^ 8 < 256 /\ 0 <= (y / 2 ^ 8) mod 2 ^ 8 < 256
  /\ 0 <= (y / 2 ^ 16) mod 2 ^ 8 < 256 /\ 0 <= y / 2 ^ 24 < 256.
Proof.
  intros H.
  repeat split; try (apply Z.mod_pos_bound; lia).
  - apply Z.div_pos; lia.
  - apply Z.div_lt_upper_bound; lia.
Qed.

(** The four bytes of a value given by its base-256 digits. *)
Lemma digits32 (c0 c1 c2 c3 : Z) :
  0 <= c0 < 256 -> 0 <= c1 < 256 -> 0 <= c2 < 256 -> 0 <= c3 < 256 ->
  let h := 2 ^ 24 * c0 + 2 ^ 16 * c1 + 2 ^ 8 * c2 + c3 in
  h mod 2 ^ 8 = c3 /\ (h / 2 ^ 8) mod 2 ^ 8 = c2
  /\ (h / 2 ^ 16) mod 2 ^ 8 = c1 /\ h / 2 ^ 24 = c0.
Proof.
  intros H0 H1 H2 H3 h. unfold h.
  change (2 ^ 8) with 256; change (2 ^ 16) with 65536;
    change (2 ^ 24) with 16777216.
  assert (Hd8 : (16777216 * c0 + 65536 * c1 + 256 * c2 + c3) / 256
                = 65536 * c0 + 256 * c1 + c2).
  { symmetry. apply (Z.div_unique _ _ _ c3); lia. }
  assert (Hd16 : (16777216 * c0 + 65536 * c1 + 256 * c2 + c3) / 65536
                 = 256 * c0 + c1).
  { symmetry. apply (Z.div_unique _ _ _ (256 * c2 + c3)); lia. }
  assert (Hd24 : (16777216 * c0 + 65536 * c1 + 256 * c2 + c3) / 16777216
                 = c0).
  { symmetry. apply (Z.div_unique _ _ _ (65536 * c1 + 256 * c2 + c3)); lia. }
  rewrite Hd8, Hd16, Hd24.
  repeat split.
  - symmetry. apply (Z.mod_unique _ _ (65536 * c0 + 256 * c1 + c2)); lia.
  - symmetry. apply (Z.mod_unique _ _ (256 * c0 + c1)); lia.
  - symmetry. apply (Z.mod_unique _ _ c0); lia.
Qed.

Lemma htonl_range (x : Z) : 0 <= htonl x < 2 ^ 32.
Proof.
  rewrite <- htonl_uint32. pose proof (uint32_range x) as H.
  rewrite htonl_arith by assumption.
  destruct (htonl_pieces (uint32 x) H) as (H0 & H1 & H2 & H3).
  lia.
Qed.

Lemma htons_involutive (x : Z) : htons (htons x) = uint16 x.
Proof.
  rewrite <- (htons_uint16 x). pose proof (uint16_range x) as H.
  set (y := uint16 x) in *.
  rewrite (htons_arith (htons y)) by apply htons_range.
  rewrite (htons_arith y) by exact H.
  Z.div_mod_to_equations. lia.
Qed.

Lemma htonl_involutive (x : Z) : htonl (htonl x) = uint32 x.
Proof.
  rewrite <- (htonl_uint32 x). pose proof (uint32_range x) as H.
  set (y := uint32 x) in *.
  rewrite (htonl_arith (htonl y)) by apply htonl_range.
  rewrite (htonl_arith y) by exact H.
  destruct (htonl_pieces y H) as (H0 & H1 & H2 & H3).
  destruct (digits32 _ _ _ _ H0 H1 H2 H3) as (E0 & E1 & E2 & E3).
  rewrite E0, E1, E2, E3.
  clear E0 E1 E2 E3 H0 H1 H2 H3.
  change (2 ^ 8) with 256; change (2 ^ 16) with 65536;
    change (2 ^ 24) with 16777216; change (2 ^ 32) with 4294967296 in *.
  Z.div_mod_to_equations. lia.
Qed.

Lemma le16_uint16 (x : Z) : le16 (uint16 x) = le16 x.
Proof.
  unfold le16, uint16. rewrite !Z.shiftr_div_pow2 by lia.
  change (2 ^ 8) with 256. change (2 ^ 16) with 65536.
  f_equal; [| f_equal]; apply Z_to_byte_eq; Z.div_mod_to_equations; lia.
Qed.

Lemma le32_uint32 (x : Z) : le32 (uint32 x) = le32 x.
Proof.
  unfold le32, uint32. rewrite !Z.shiftr_div_pow2 by lia.
  change 256 with (2 ^ 8) in *.
  f_equal; [| f_equal; [| f_equal; [| f_equal]]]; apply Z_to_byte_eq;
    change 256 with (2 ^ 8).
  - apply Z.mod_mod_divide. exists (2 ^ 24). reflexivity.
  - change (2 ^ 32) with (2 ^ 8 * 2 ^ 24).
    rewrite Z.rem_mul_r by lia.
    rewrite Z.mul_comm, Z.div_add by lia.
    rewrite (Z.div_small (x mod 2 ^ 8)) by (apply Z.mod_pos_bound; lia).
    rewrite Z.add_0_l.
    apply Z.mod_mod_divide. exists (2 ^ 16). reflexivity.
  - change (2 ^ 32) with (2 ^ 16 * 2 ^ 16).
    rewrite Z.rem_mul_r by lia.
    rewrite Z.mul_comm, Z.div_add by lia.
    rewrite (Z.div_small (x mod 2 ^ 16)) by (apply Z.mod_pos_bound; lia).
    rewrite Z.add_0_l.
    apply Z.mod_mod_divide. exists (2 ^ 8). reflexivity.
  - change (2 ^ 32) with (2 ^ 24 * 2 ^ 8).
    rewrite Z.rem_mul_r by lia.
    rewrite Z.mul_comm, Z.div_add by lia.
    rewrite (Z.div_small (x mod 2 ^ 24)) by (apply Z.mod_pos_bound; lia).
    rewrite Z.add_0_l.
    rewrite Z.mod_mod by lia. reflexivity.
Qed.

(** A value laid down by the host reads, most significant byte first, as
    its byte reversal. *)
Lemma le16_is_be16_htons (x : Z) : le16 x = be16 (htons x).
Proof.
  rewrite <- le16_uint16, <- htons_involutive.
  rewrite le16_htons_any. f_equal.
  apply uint16_small. apply htons_range.
Qed.

Lemma le32_is_be32_htonl (x : Z) : le32 x = be32 (htonl x).
Proof.
  rewrite <- le32_uint32, <- htonl_involutive.
  rewrite le32_htonl_any. f_equal.
  unfold uint32. apply Z.mod_small. apply htonl_range.
Qed.

(** X9.  The two length fields for a payload of any length.  The
    total_length field of the IP header reads 20 + 20 + data_length reduced
    modulo 2^16, and the TCP-length field of the pseudo-header reads
    20 + data_length reduced modulo 2^16: beyond 65495 and 65515 bytes the
    fields wrap around instead of the call being refused. *)
Theorem length_fields_modulo
    (source_address source_port destination_address destination_port
     sequence_number acknowledgement_number flags : Z)
    (data : list byte) (data_length : Z) :
  be16_at (send_PDU source_address destination_address source_port
             destination_port sequence_number acknowledgement_number flags
             data data_length) 2
  = (20 + 20 + data_length) mod 2 ^ 16
  /\ be16_at (pseudo_header_bytes
                (send_ph source_address destination_address source_port
                   destination_port sequence_number acknowledgement_number
                   flags data data_length)) 10
     = (20 + data_length) mod 2 ^ 16.
Proof.
  split.
  - rewrite send_PDU_headers, send_iph_bytes, le16_htons_any.
    unfold send_total_length, sizeof_ip_header, sizeof_tcp_header.
    rewrite (uint16_small (uint16 _)) by apply uint16_range.
    rewrite <- !app_assoc.
    apply be16_at_be16; [apply uint16_range | reflexivity].
  - rewrite send_ph_bytes, le16_htons_any.
    unfold sizeof_tcp_header.
    replace (uint16 (20 + 0 + uint16 data_length))
      with ((20 + data_length) mod 2 ^ 16)
      by (unfold uint16; rewrite Z.add_0_r, Z.add_mod_idemp_r by lia;
          reflexivity).
    rewrite <- (app_nil_r (be16 _)), !app_assoc, <- app_assoc.
    apply be16_at_be16; [apply Z.mod_pos_bound; lia | reflexivity].
Qed.

Lemma send_PDU_length
    (source_address source_port destination_address destination_port
     sequence_number acknowledgement_number flags : Z) (data : list byte) :
  List.length
    (send_PDU source_address destination_address source_port
       destination_port sequence_number acknowledgement_number flags
       data (Z.of_nat (List.length data)))
  = (40 + List.length data)%nat.
Proof.
  rewrite send_PDU_headers, (memcpy_all data) by reflexivity.
  rewrite !length_app.
  rewrite ip_header_bytes_length, tcp_header_bytes_length. lia.
Qed.

(** X10.  The PDU can be taken apart again.  When [data_length] is the
    number of bytes of [data], the PDU has 40 + data_length bytes, its first
    byte announces version 4 and a header of 5 words, byte 12 of the TCP
    header announces a data offset of 5 words, and the bytes found after
    the two announced header lengths are exactly [data]. *)
Theorem PDU_announces_its_layout
    (source_address source_port destination_address destination_port
     sequence_number acknowledgement_number flags : Z) (data : list byte) :
  let PDU := send_PDU source_address destination_address source_port
               destination_port sequence_number acknowledgement_number flags
               data (Z.of_nat (List.length data)) in
  let version := Z.shiftr (byte_at PDU 0) 4 in
  let ihl := Z.land (byte_at PDU 0) 0xF in
  let data_offset := Z.shiftr (byte_at PDU 32) 4 in
  List.length PDU = (40 + List.length data)%nat
  /\ version = 4 /\ ihl = 5 /\ data_offset = 5
  /\ skipn (Z.to_nat (4 * ihl + 4 * data_offset)) PDU = data.
Proof.
  intros PDU version ihl data_offset.
  assert (HP : PDU = ip_header_bytes
                       (send_iph source_address destination_address
                          (Z.of_nat (List.length data)))
                     ++ tcp_header_bytes
                          (send_tcph source_address destination_address
                             source_port destination_port sequence_number
                             acknowledgement_number flags data
                             (Z.of_nat (List.length data)))
                     ++ data).
  { unfold PDU. rewrite send_PDU_headers.
    rewrite (memcpy_all data) by reflexivity. reflexivity. }
  assert (Hv : version = 4).
  { unfold version, PDU. rewrite send_PDU_headers, send_iph_bytes.
    reflexivity. }
  assert (Hi : ihl = 5).
  { unfold ihl, PDU. rewrite send_PDU_headers, send_iph_bytes.
    reflexivity. }
  assert (Hd : data_offset = 5).
  { unfold data_offset. rewrite HP.
    change 32%nat
      with (List.length
              (ip_header_bytes
                 (send_iph source_address destination_address
                    (Z.of_nat (List.length data)))) + 12)%nat.
    rewrite byte_at_app, send_tcph_bytes. reflexivity. }
  repeat split; try assumption.
  - rewrite HP, !length_app.
    rewrite ip_header_bytes_length, tcp_header_bytes_length. lia.
  - rewrite Hi, Hd. change (Z.to_nat (4 * 5 + 4 * 5)) with (20 + 20)%nat.
    rewrite HP, <- skipn_skipn.
    rewrite skipn_length_app by apply ip_header_bytes_length.
    apply skipn_length_app. apply tcp_header_bytes_length.
Qed.

(** X11.  What reaches [sendto].  When [data_length] is the number of
    bytes of [data], [sendto] is called on the descriptor [socket]
    returned, whatever its sign, with the first
    (20 + 20 + data_length) mod 2^16 bytes of the PDU: the whole PDU up to
    65495 bytes of payload, a truncated one beyond. *)
Theorem sendto_receives_total_length_bytes (env : environment)
    (source_address source_port destination_address destination_port
     sequence_number acknowledgement_number flags : Z) (data : list byte) :
  let L := Z.of_nat (List.length data) in
  let PDU := send_PDU source_address destination_address source_port
               destination_port sequence_number acknowledgement_number flags
               data L in
  exists buf rest,
    In (Esendto (socket env AF_INET SOCK_RAW IPPROTO_RAW) buf 0
          {| sin_family := AF_INET;
             sin_port := destination_port;
             sin_address := destination_address |})
       (send_tcp_packet env source_address source_port destination_address
          destination_port sequence_number acknowledgement_number flags
          data L)
    /\ PDU = buf ++ rest
    /\ Z.of_nat (List.length buf) = (20 + 20 + L) mod 2 ^ 16.
Proof.
  intros L PDU.
  exists (memcpy PDU (send_total_length L)),
         (skipn (Z.to_nat (send_total_length L)) PDU).
  split; [| split].
  - unfold send_tcp_packet. cbv zeta. fold PDU.
    apply in_or_app. right. apply in_or_app. right. left. reflexivity.
  - unfold memcpy. symmetry. apply firstn_skipn.
  - unfold memcpy. rewrite length_firstn.
    assert (HP : List.length PDU = (40 + List.length data)%nat).
    { apply (send_PDU_length source_address source_port
               destination_address destination_port sequence_number
               acknowledgement_number flags data). }
    rewrite HP.
    unfold send_total_length, uint16, sizeof_ip_header, sizeof_tcp_header.
    assert (H0 : 0 <= L) by apply Nat2Z.is_nonneg.
    pose proof (Z.mod_pos_bound (20 + 20 + L) (2 ^ 16) ltac:(lia)) as Hm.
    pose proof (Z.mod_le (20 + 20 + L) (2 ^ 16) ltac:(lia) ltac:(lia)) as Hle.
    unfold L in *. lia.
Qed.

(** The port and number fields of the PDU, for arguments of any size. *)
Lemma send_PDU_fields
    (source_address source_port destination_address destination_port
     sequence_number acknowledgement_number flags : Z)
    (data : list byte) (data_length : Z) :
  let PDU := send_PDU source_address destination_address source_port
               destination_port sequence_number acknowledgement_number flags
               data data_length in
  be16_at PDU 20 = htons source_port
  /\ be16_at PDU 22 = htons destination_port
  /\ be32_at PDU 24 = htonl sequence_number
  /\ be32_at PDU 28 = htonl acknowledgement_number.
Proof.
  intros PDU. unfold PDU. rewrite send_PDU_headers, send_tcph_bytes.
  rewrite (le16_is_be16_htons source_port),
          (le16_is_be16_htons destination_port),
          (le32_is_be32_htonl sequence_number),
          (le32_is_be32_htonl acknowledgement_number).
  rewrite <- !app_assoc.
  set (iphb := ip_header_bytes
                 (send_iph source_address destination_address data_length)).
  change 28%nat with (List.length iphb + 8)%nat.
  change 24%nat with (List.length iphb + 4)%nat.
  change 22%nat with (List.length iphb + 2)%nat.
  change 20%nat with (List.length iphb + 0)%nat.
  rewrite !be16_at_app, !be32_at_app.
  repeat split.
  - apply (be16_at_be16 _ []); [apply htons_range | reflexivity].
  - apply (be16_at_be16 _ (be16 (htons source_port)));
      [apply htons_range | reflexivity].
  - apply (be32_at_be32 _ (be16 (htons source_port)
                           ++ be16 (htons destination_port)));
      [apply htonl_range | reflexivity].
  - apply (be32_at_be32 _ (be16 (htons source_port)
                           ++ be16 (htons destination_port)
                           ++ be32 (htonl sequence_number)));
      [apply htonl_range | reflexivity].
Qed.

(** X12.  What [send_tcp_packet] does with its numeric arguments, whatever
    they are: each is laid down as the host holds it, so the field of the
    PDU read as a big-endian integer is the byte reversal of the argument
    ([htons] of a port, [htonl] of a sequence or acknowledgement
    number). *)
Theorem fields_are_byte_reversed_arguments
    (source_address source_port destination_address destination_port
     sequence_number acknowledgement_number flags : Z)
    (data : list byte) (data_length : Z) :
  let PDU := send_PDU source_address destination_address source_port
               destination_port sequence_number acknowledgement_number flags
               data data_length in
  be16_at PDU 20 = htons source_port
  /\ be16_at PDU 22 = htons destination_port
  /\ be32_at PDU 24 = htonl sequence_number
  /\ be32_at PDU 28 = htonl acknowledgement_number.
Proof.
  apply send_PDU_fields.
Qed.

(** Byte 13 of the TCP header in the PDU. *)
Lemma send_PDU_flags_byte
    (source_address source_port destination_address destination_port
     sequence_number acknowledgement_number flags : Z)
    (data : list byte) (data_length : Z) :
  byte_at (send_PDU source_address destination_address source_port
             destination_port sequence_number acknowledgement_number flags
             data data_length) 33 = Z.land flags 0x3F.
Proof.
  rewrite send_PDU_headers.
  change 33%nat
    with (List.length
            (ip_header_bytes
               (send_iph source_address destination_address data_length))
          + 13)%nat.
  rewrite byte_at_app, send_tcph_bytes.
  unfold byte_at.
  change (byte_to_Z
            (Z_to_byte
               (tcp_flags_byte
                  (send_tcph_init source_port destination_port
                     sequence_number acknowledgement_number flags)))
          = Z.land flags 0x3F).
  rewrite byte_to_Z_to_byte, tcp_flags_byte_send.
  apply Z.mod_small.
  pose proof (land_low_small flags 6 ltac:(lia)) as H.
  change (Z.ones 6) with 0x3F in H. lia.
Qed.

(** ** main, end to end *)

(** X13.  The segment [main] sends.  With five arguments, or six when the
    data argument has at most 65495 bytes, [main] hands [sendto] a PDU whose
    ports read, as big-endian integers, what [atoi] returned for the two
    port arguments reduced modulo 2^16, whose sequence number reads 0x1000,
    whose acknowledgement number reads 0, whose flags byte is SYN alone and
    whose payload is the bytes of the data argument (none with five
    arguments).  The destination given to [sendto] carries the port in
    network order and the address [inet_addr] returned. *)
Theorem main_sends_syn_segment (env : environment) (argc : Z)
    (argv : list string) :
  let data := if argc =? 6 then list_byte_of_string (argv_at argv 5)
              else [] in
  (argc = 5 \/ argc = 6) ->
  Z.of_nat (List.length data) <= 65495 ->
  exists PDU,
    In (Esendto (socket env AF_INET SOCK_RAW IPPROTO_RAW) PDU 0
          {| sin_family := AF_INET;
             sin_port := htons (atoi env (argv_at argv 4));
             sin_address := inet_addr env (argv_at argv 3) |})
       (snd (main env argc argv))
    /\ be16_at PDU 20 = (atoi env (argv_at argv 2)) mod 2 ^ 16
    /\ be16_at PDU 22 = (atoi env (argv_at argv 4)) mod 2 ^ 16
    /\ be32_at PDU 24 = 0x1000
    /\ be32_at PDU 28 = 0
    /\ byte_at PDU 33 = SYN
    /\ skipn 40 PDU = data.
Proof.
  intros data Hargc Hlen.
  assert (H0 : 0 <= Z.of_nat (List.length data)) by apply Nat2Z.is_nonneg.
  set (PDU := send_PDU (inet_addr env (argv_at argv 1))
                (inet_addr env (argv_at argv 3))
                (htons (atoi env (argv_at argv 2)))
                (htons (atoi env (argv_at argv 4)))
                (htonl 0x1000) (htonl 0x0) SYN data
                (Z.of_nat (List.length data))).
  assert (Hmain : snd (main env argc argv)
                  = send_tcp_packet env (inet_addr env (argv_at argv 1))
                      (htons (atoi env (argv_at argv 2)))
                      (inet_addr env (argv_at argv 3))
                      (htons (atoi env (argv_at argv 4)))
                      (htonl 0x1000) (htonl 0x0) SYN data
                      (Z.of_nat (List.length data))).
  { unfold main, data.
    destruct Hargc as [-> | ->]; cbn [Z.eqb Pos.eqb negb andb snd].
    - reflexivity.
    - rewrite int32_small; [reflexivity |].
      unfold data in Hlen, H0. cbn [Z.eqb Pos.eqb] in Hlen, H0. lia. }
  exists PDU. split; [| split; [| split; [| split; [| split; [| split]]]]].
  - rewrite Hmain.
    apply send_tcp_packet_hands_over_PDU. exact Hlen.
  - destruct (send_PDU_fields
                (inet_addr env (argv_at argv 1))
                (htons (atoi env (argv_at argv 2)))
                (inet_addr env (argv_at argv 3))
                (htons (atoi env (argv_at argv 4)))
                (htonl 0x1000) (htonl 0x0) SYN data
                (Z.of_nat (List.length data))) as (E & _).
    fold PDU in E. rewrite E. apply htons_involutive.
  - destruct (send_PDU_fields
                (inet_addr env (argv_at argv 1))
                (htons (atoi env (argv_at argv 2)))
                (inet_addr env (argv_at argv 3))
                (htons (atoi env (argv_at argv 4)))
                (htonl 0x1000) (htonl 0x0) SYN data
                (Z.of_nat (List.length data))) as (_ & E & _).
    fold PDU in E. rewrite E. apply htons_involutive.
  - destruct (send_PDU_fields
                (inet_addr env (argv_at argv 1))
                (htons (atoi env (argv_at argv 2)))
                (inet_addr env (argv_at argv 3))
                (htons (atoi env (argv_at argv 4)))
                (htonl 0x1000) (htonl 0x0) SYN data
                (Z.of_nat (List.length data))) as (_ & _ & E & _).
    fold PDU in E. rewrite E. reflexivity.
  - destruct (send_PDU_fields
                (inet_addr env (argv_at argv 1))
                (htons (atoi env (argv_at argv 2)))
                (inet_addr env (argv_at argv 3))
                (htons (atoi env (argv_at argv 4)))
                (htonl 0x1000) (htonl 0x0) SYN data
                (Z.of_nat (List.length data))) as (_ & _ & _ & E).
    fold PDU in E. rewrite E. reflexivity.
  - unfold PDU. rewrite send_PDU_flags_byte. reflexivity.
  - unfold PDU. rewrite send_PDU_headers, (memcpy_all data) by reflexivity.
    change 40%nat with (20 + 20)%nat. rewrite <- skipn_skipn.
    rewrite skipn_length_app by apply ip_header_bytes_length.
    apply skipn_length_app. apply tcp_header_bytes_length.
Qed.

Lemma main_sends_syn_segment_witness :
  (5 = 5 \/ 5 = 6) /\
  Z.of_nat (List.length (if 5 =? 6
                         then list_byte_of_string
                                (argv_at ["send_tcp"; "10.0.0.1"; "12345";
                                          "10.0.0.2"; "80"]%string 5)
                         else [])) <= 65495 /\
  exists PDU,
    In (Esendto (socket env_ok AF_INET SOCK_RAW IPPROTO_RAW) PDU 0
          {| sin_family := AF_INET;
             sin_port :=
               htons (atoi env_ok
                        (argv_at ["send_tcp"; "10.0.0.1"; "12345";
                                  "10.0.0.2"; "80"]%string 4));
             sin_address :=
               inet_addr env_ok
                 (argv_at ["send_tcp"; "10.0.0.1"; "12345";
                           "10.0.0.2"; "80"]%string 3) |})
       (snd (main env_ok 5
               ["send_tcp"; "10.0.0.1"; "12345"; "10.0.0.2"; "80"]%string))
    /\ be16_at PDU 20 = 12345.
Proof.
  split; [left; reflexivity |]. split; [cbn; lia |].
  destruct (main_sends_syn_segment env_ok 5
              ["send_tcp"; "10.0.0.1"; "12345"; "10.0.0.2"; "80"]%string
              (or_introl eq_refl) ltac:(cbn; lia))
    as (PDU & Hin & Hsp & _).
  exists PDU. split; [exact Hin | exact Hsp].
Defined.

(** ** print_bytes *)

Lemma hex_digits_read_back (b : byte) :
  Z_to_byte (16 * hex_value (hex_digit (byte_to_Z b / 16))
             + hex_value (hex_digit (byte_to_Z b mod 16))) = b.
Proof. destruct b; reflexivity. Qed.

Lemma bin_digits_read_back (b : byte) :
  let v := byte_to_Z b in
  Z_to_byte
    (128 * bin_value (bin_digit v 7) + 64 * bin_value (bin_digit v 6)
     + 32 * bin_value (bin_digit v 5) + 16 * bin_value (bin_digit v 4)
     + 8 * bin_value (bin_digit v 3) + 4 * bin_value (bin_digit v 2)
     + 2 * bin_value (bin_digit v 1) + bin_value (bin_digit v 0)) = b.
Proof. destruct b; reflexivity. Qed.

(** The end of the first line: the reader stops at the newline, whatever
    binary line follows. *)
Lemma read_hex_line_stops (bs : list byte) :
  read_hex_line (newline ++ print_loop format_08B bs ++ newline)
  = ([], (print_loop format_08B bs ++ newline)%string).
Proof.
  destruct bs as [| b bs].
  - reflexivity.
  - cbn [print_loop]. unfold format_08B. cbv zeta.
    unfold bin_digit.
    destruct (Z.testbit (byte_to_Z b) 7), (Z.testbit (byte_to_Z b) 6);
      reflexivity.
Qed.

Lemma read_hex_line_print_loop (bs tail : list byte) :
  read_hex_line
    (print_loop format_02X bs ++ newline
     ++ print_loop format_08B tail ++ newline)
  = (bs, (print_loop format_08B tail ++ newline)%string).
Proof.
  induction bs as [| b bs IH].
  - apply read_hex_line_stops.
  - cbn [print_loop]. unfold format_02X at 1. cbv zeta.
    cbn [append read_hex_line]. rewrite IH.
    rewrite hex_digits_read_back. reflexivity.
Qed.

Lemma read_bin_line_print_loop (bs : list byte) :
  read_bin_line (print_loop format_08B bs ++ newline) = (bs, EmptyString).
Proof.
  induction bs as [| b bs IH].
  - reflexivity.
  - cbn [print_loop]. unfold format_08B at 1. cbv zeta.
    cbn [append read_bin_line]. rewrite IH.
    rewrite (bin_digits_read_back b). reflexivity.
Qed.

Lemma print_bytes_lines (p : list byte) (num_bytes : Z) :
  fst (read_hex_line (print_bytes p num_bytes))
  = firstn (Z.to_nat num_bytes) p
  /\ read_bin_line (snd (read_hex_line (print_bytes p num_bytes)))
     = (firstn (Z.to_nat num_bytes) p, EmptyString).
Proof.
  unfold print_bytes.
  rewrite read_hex_line_print_loop. cbn [fst snd].
  split; [reflexivity | apply read_bin_line_print_loop].
Qed.

(** X14.  The dump of [print_bytes] loses nothing.  Its first line, read
    back two hexadecimal digits at a time, and its second line, read back
    eight binary digits at a time, both give the first [num_bytes] bytes of
    the range, and nothing follows the second line. *)
Theorem print_bytes_reads_back (p : list byte) (num_bytes : Z) :
  let out := print_bytes p num_bytes in
  fst (read_hex_line out) = firstn (Z.to_nat num_bytes) p
  /\ read_bin_line (snd (read_hex_line out))
     = (firstn (Z.to_nat num_bytes) p, EmptyString).
Proof.
  intros out. unfold out. apply print_bytes_lines.
Qed.


(** ** What checksum detects *)

(** Equal checksums mean word sums that differ by a multiple of
    2^16 - 1. *)
Lemma checksum_eq_sum_congruent (p q : list byte) :
  Z.of_nat (List.length p) <= 65535 ->
  Z.of_nat (List.length q) <= 65535 ->
  checksum p (Z.of_nat (List.length p)) = checksum q (Z.of_nat (List.length q)) ->
  exists k, Zsum (le_words p) - Zsum (le_words q) = 65535 * k.
Proof.
  intros Hp Hq Heq.
  destruct (checksum_value p (Z.of_nat (List.length p)))
    as (f & j & Hc & _ & _ & HS & _).
  { rewrite firstn_length_all. apply sum_below_overflow. exact Hp. }
  destruct (checksum_value q (Z.of_nat (List.length q)))
    as (f' & j' & Hc' & _ & _ & HS' & _).
  { rewrite firstn_length_all. apply sum_below_overflow. exact Hq. }
  rewrite firstn_length_all in HS, HS'.
  exists (j - j'). lia.
Qed.

(** Replacing one byte moves the word sum by the difference of the two
    bytes, times 1 or 2^8 according to the half of the word it sits in. *)
Lemma le_words_sum_one_byte (a b : list byte) (x y : byte) :
  exists m, (m = 1 \/ m = 256)
    /\ Zsum (le_words (a ++ [x] ++ b)) - Zsum (le_words (a ++ [y] ++ b))
       = m * (byte_to_Z x - byte_to_Z y).
Proof.
  induction a as [| a0 | a0 a1 a IH] using list_pair_ind.
  - exists 1. split; [left; reflexivity |].
    destruct b as [| b0 b]; cbn [app le_words]; rewrite !Zsum_cons;
      unfold load16; lia.
  - exists 256. split; [right; reflexivity |].
    cbn [app le_words]. rewrite !Zsum_cons. unfold load16. lia.
  - destruct IH as (m & Hm & IH). exists m. split; [exact Hm |].
    cbn [app le_words]. rewrite !Zsum_cons.
    cbn [app] in IH. lia.
Qed.

Lemma byte_to_Z_inj (x y : byte) : byte_to_Z x = byte_to_Z y -> x = y.
Proof.
  intros H. rewrite <- (Z_to_byte_to_Z x), <- (Z_to_byte_to_Z y), H.
  reflexivity.
Qed.

(** X16.  A single corrupted byte is always detected: two ranges of at
    most 65535 bytes that differ in exactly one byte, at any offset, never
    have the same checksum. *)
Theorem checksum_detects_one_byte (a b : list byte) (x y : byte) :
  Z.of_nat (List.length (a ++ [x] ++ b)) <= 65535 ->
  x <> y ->
  checksum (a ++ [x] ++ b) (Z.of_nat (List.length (a ++ [x] ++ b)))
  <> checksum (a ++ [y] ++ b) (Z.of_nat (List.length (a ++ [y] ++ b))).
Proof.
  intros Hlen Hxy Heq.
  assert (Hl : List.length (a ++ [y] ++ b) = List.length (a ++ [x] ++ b)).
  { rewrite !length_app. reflexivity. }
  destruct (checksum_eq_sum_congruent _ _ Hlen ltac:(rewrite Hl; exact Hlen)
              Heq) as [k Hk].
  destruct (le_words_sum_one_byte a b x y) as (m & Hm & Hd).
  pose proof (byte_to_Z_range x). pose proof (byte_to_Z_range y).
  apply Hxy. apply byte_to_Z_inj.
  destruct Hm as [-> | ->]; lia.
Qed.

Lemma checksum_detects_one_byte_witness :
  Z.of_nat (List.length (["E"%byte] ++ ["A"%byte] ++ [x00])) <= 65535 /\
  "A"%byte <> "B"%byte /\
  checksum (["E"%byte] ++ ["A"%byte] ++ [x00])
    (Z.of_nat (List.length (["E"%byte] ++ ["A"%byte] ++ [x00])))
  <> checksum (["E"%byte] ++ ["B"%byte] ++ [x00])
       (Z.of_nat (List.length (["E"%byte] ++ ["B"%byte] ++ [x00]))).
Proof.
  split; [cbn; lia |]. split; [discriminate |].
  exact (checksum_detects_one_byte ["E"%byte] [x00] "A"%byte "B"%byte
           ltac:(cbn; lia) ltac:(discriminate)).
Defined.

(** X17.  A corrupted 16-bit word at an even offset goes undetected in
    one case only: if two ranges of at most 65535 bytes that differ in one
    aligned word have the same checksum, then one of the two words is 00 00
    and the other FF FF. *)
Theorem checksum_detects_one_word (a b : list byte) (x0 x1 y0 y1 : byte) :
  Nat.even (List.length a) = true ->
  Z.of_nat (List.length (a ++ [x0; x1] ++ b)) <= 65535 ->
  [x0; x1] <> [y0; y1] ->
  checksum (a ++ [x0; x1] ++ b)
    (Z.of_nat (List.length (a ++ [x0; x1] ++ b)))
  = checksum (a ++ [y0; y1] ++ b)
      (Z.of_nat (List.length (a ++ [y0; y1] ++ b))) ->
  ([x0; x1] = [x00; x00] /\ [y0; y1] = [xff; xff])
  \/ ([x0; x1] = [xff; xff] /\ [y0; y1] = [x00; x00]).
Proof.
  intros He Hlen Hne Heq.
  assert (Hl : List.length (a ++ [y0; y1] ++ b)
               = List.length (a ++ [x0; x1] ++ b)).
  { rewrite !length_app. reflexivity. }
  destruct (checksum_eq_sum_congruent _ _ Hlen ltac:(rewrite Hl; exact Hlen)
              Heq) as [k Hk].
  rewrite (le_words_app a ([x0; x1] ++ b)),
          (le_words_app a ([y0; y1] ++ b)) in Hk by exact He.
  rewrite !Zsum_app in Hk. cbn [app le_words] in Hk.
  rewrite !Zsum_cons in Hk. unfold load16 in Hk.
  pose proof (byte_to_Z_range x0) as Hx0.
  pose proof (byte_to_Z_range x1) as Hx1.
  pose proof (byte_to_Z_range y0) as Hy0.
  pose proof (byte_to_Z_range y1) as Hy1.
  assert (Hk3 : k = -1 \/ k = 0 \/ k = 1) by lia.
  destruct Hk3 as [-> | [-> | ->]].
  - left.
    assert (byte_to_Z x0 = byte_to_Z x00) by (change (byte_to_Z x00) with 0; lia).
    assert (byte_to_Z x1 = byte_to_Z x00) by (change (byte_to_Z x00) with 0; lia).
    assert (byte_to_Z y0 = byte_to_Z xff) by (change (byte_to_Z xff) with 255; lia).
    assert (byte_to_Z y1 = byte_to_Z xff) by (change (byte_to_Z xff) with 255; lia).
    split; f_equal; try f_equal; apply byte_to_Z_inj; assumption.
  - exfalso. apply Hne.
    assert (byte_to_Z x0 = byte_to_Z y0) by lia.
    assert (byte_to_Z x1 = byte_to_Z y1) by lia.
    f_equal; try f_equal; apply byte_to_Z_inj; assumption.
  - right.
    assert (byte_to_Z x0 = byte_to_Z xff) by (change (byte_to_Z xff) with 255; lia).
    assert (byte_to_Z x1 = byte_to_Z xff) by (change (byte_to_Z xff) with 255; lia).
    assert (byte_to_Z y0 = byte_to_Z x00) by (change (byte_to_Z x00) with 0; lia).
    assert (byte_to_Z y1 = byte_to_Z x00) by (change (byte_to_Z x00) with 0; lia).
    split; f_equal; try f_equal; apply byte_to_Z_inj; assumption.
Qed.

Lemma checksum_detects_one_word_witness :
  Nat.even (List.length (@nil byte)) = true /\
  Z.of_nat (List.length ([] ++ [x00; x00] ++ ["A"%byte])) <= 65535 /\
  [x00; x00] <> [xff; xff] /\
  checksum ([] ++ [x00; x00] ++ ["A"%byte])
    (Z.of_nat (List.length ([] ++ [x00; x00] ++ ["A"%byte])))
  = checksum ([] ++ [xff; xff] ++ ["A"%byte])
      (Z.of_nat (List.length ([] ++ [xff; xff] ++ ["A"%byte]))) /\
  (([x00; x00] = [x00; x00] /\ [xff; xff] = [xff; xff])
   \/ ([x00; x00] = [xff; xff] /\ [xff; xff] = [x00; x00])).
Proof.
  split; [reflexivity |]. split; [cbn; lia |]. split; [discriminate |].
  split; [vm_compute; reflexivity |].
  exact (checksum_detects_one_word [] ["A"%byte] x00 x00 xff xff eq_refl
           ltac:(cbn; lia) ltac:(discriminate)
           ltac:(vm_compute; reflexivity)).
Defined.

(** ** build_pseudo_header on its own *)

(** X18.  The contract of [build_pseudo_header].  For any IP header, the
    12 bytes of the pseudo-header are the source and destination address
    bytes of that header (its bytes 12 to 19), a zero byte, its protocol
    byte (byte 9), and a length field that reads
    20 + options_length + tcp_payload_length reduced modulo 2^16. *)
Theorem build_pseudo_header_bytes (tcph : tcp_header) (iph : ip_header)
    (options : list byte) (options_length : Z)
    (tcp_payload : list byte) (tcp_payload_length : Z) :
  let phb := pseudo_header_bytes
               (build_pseudo_header tcph iph options options_length
                  tcp_payload tcp_payload_length) in
  firstn 8 phb = skipn 12 (ip_header_bytes iph)
  /\ nth 8 phb xff = x00
  /\ nth 9 phb x00 = nth 9 (ip_header_bytes iph) x00
  /\ be16_at phb 10
     = (20 + options_length + tcp_payload_length) mod 2 ^ 16
  /\ List.length phb = 12%nat.
Proof.
  intros phb.
  repeat split; try reflexivity.
  unfold phb, pseudo_header_bytes.
  cbn [build_pseudo_header ph_source_address ph_destination_address
       ph_reserved ph_protocol ph_tcp_length].
  rewrite le16_htons_any. unfold sizeof_tcp_header.
  rewrite <- (app_nil_r (be16 _)), !app_assoc, <- app_assoc.
  apply be16_at_be16; [apply uint16_range | reflexivity].
Qed.
